(** * parkease backend: the occupancy model of [index.js]

    A shallow embedding of the five route handlers of [src/index.js] over an
    in-memory relational store, and the properties of the occupancy data
    model: derived counters, slot generation, batch reconciliation, proximity
    filtering and deletion. *)

From Stdlib Require Import ZArith QArith List String Bool Lia DecimalString.
Import ListNotations.

Local Open Scope Z_scope.
Local Open Scope string_scope.

(** ** JavaScript values *)

(** A JS number by its exact value.  Every finite double is a rational, and
    [index.js] itself only compares numbers, tests them for truthiness and
    adds or subtracts small integers, none of which rounds. *)
Inductive number : Type :=
  | NaN
  | Infinity (negative : bool)
  | Finite (q : Q).

Definition of_Z (z : Z) : number := Finite (inject_Z z).

(** [a <= b] on numbers: false as soon as one side is [NaN]. *)
Definition number_le (a b : number) : bool :=
  match a, b with
  | NaN, _ | _, NaN => false
  | Infinity true, _ => true
  | _, Infinity false => true
  | Infinity false, _ => false
  | Finite _, Infinity true => false
  | Finite x, Finite y => Qle_bool x y
  end.

(** SameValueZero on numbers, the equality of [Array.prototype.includes]. *)
Definition same_number (a b : number) : bool :=
  match a, b with
  | NaN, NaN => true
  | Infinity s, Infinity t => Bool.eqb s t
  | Finite x, Finite y => Qeq_bool x y
  | _, _ => false
  end.

(** A parsed JSON value; [VUndefined] is the value of a field that the
    request body does not have. *)
#[warnings="-register-all"]
Inductive value : Type :=
  | VUndefined
  | VNull
  | VBool (b : bool)
  | VNum (n : number)
  | VStr (s : string)
  | VArr (elements : list value)
  | VObj (fields : list (string * value)).

(** ToBoolean, the coercion behind [!x], [x && y] and [if (x)]. *)
Class ToBoolean (A : Type) := to_boolean : A -> bool.

#[export] Instance number_ToBoolean : ToBoolean number :=
  fun n => match n with
           | NaN => false
           | Infinity _ => true
           | Finite q => negb (Qeq_bool q 0)
           end.

#[export] Instance string_ToBoolean : ToBoolean string :=
  fun s => negb (s =? "")%string.

#[export] Instance Z_ToBoolean : ToBoolean Z :=
  fun z => negb (z =? 0)%Z.

(** An absent field is [undefined], which is falsy. *)
#[export] Instance option_ToBoolean {A} `{ToBoolean A} : ToBoolean (option A) :=
  fun o => match o with
           | None => false
           | Some a => to_boolean a
           end.

#[export] Instance value_ToBoolean : ToBoolean value :=
  fun v => match v with
           | VUndefined | VNull => false
           | VBool b => b
           | VNum n => to_boolean n
           | VStr s => to_boolean s
           | VArr _ | VObj _ => true
           end.

(** [Array.isArray] *)
Definition isArray (v : value) : bool :=
  match v with
  | VArr _ => true
  | _ => false
  end.

(** ** Exceptions *)

Inductive error : Type :=
  | TypeError
  | RangeError.

Inductive completion (A : Type) : Type :=
  | Return (a : A)
  | Throw (e : error).

Arguments Return {A} a.
Arguments Throw {A} e.

Definition bind {A B} (c : completion A) (k : A -> completion B) : completion B :=
  match c with
  | Return a => k a
  | Throw e => Throw e
  end.

Notation "x <- c ;; k" := (bind c (fun x => k))
  (at level 61, c at next level, right associativity).

(** [Array.prototype.map] with a callback that may throw. *)
Fixpoint mapM {A B} (f : A -> completion B) (l : list A) : completion (list B) :=
  match l with
  | [] => Return []
  | a :: l' =>
      b <- f a ;;
      bs <- mapM f l' ;;
      Return (b :: bs)
  end.

(** ToString of an integral number: its decimal digits (slot numbers are
    far below 10^21, where the exponent notation starts). *)
Definition toString (k : Z) : string := NilZero.string_of_int (Z.to_int k).

(** [x.includes(k)] for a slot number [k].  An array compares its elements
    to [k] with SameValueZero; a string has an [includes] method of its own,
    which searches for the decimal digits of [k]; no other JSON value has an
    [includes] property, and calling it throws a TypeError. *)
Definition includes (x : value) (k : Z) : completion bool :=
  match x with
  | VArr elements =>
      Return (existsb (fun v => match v with
                               | VNum n => same_number n (of_Z k)
                               | _ => false
                               end) elements)
  | VStr s =>
      Return (match String.index 0 (toString k) s with
              | Some _ => true
              | None => false
              end)
  | _ => Throw TypeError
  end.

(** The largest length an array can have, 2^32 - 1. *)
Definition max_array_length : Z := 4294967295.

(** [Array.from({ length }, mapFn)]: the indices 0 .. length-1 in order; a
    negative length counts as 0, and a length above 2^32 - 1 is refused with
    a RangeError when the array is allocated, before [mapFn] is called. *)
Definition array_from {A} (length : Z) (mapFn : Z -> completion A)
  : completion (list A) :=
  if (max_array_length <? length)%Z then Throw RangeError
  else mapM (fun index => mapFn (Z.of_nat index)) (seq 0 (Z.to_nat length)).

(** ** The store *)

(** Modelled from the spec: the ParkingLot table (prisma/schema.prisma is not
    in src); the columns are the Facility attributes of the data model. *)
Module ParkingLot.
Record t : Type := mk {
  id : nat;
  name : string;
  location : string;
  latitude : number;
  longitude : number;
  totalSlots : Z
}.
End ParkingLot.

(** Modelled from the spec: the Slot table (prisma/schema.prisma is not in
    src); a slot row points at its owning facility. *)
Module Slot.
Record t : Type := mk {
  id : nat;
  slotNumber : Z;
  status : bool;
  parkingLotId : nat
}.

Definition set_status (b : bool) (s : t) : t :=
  mk (id s) (slotNumber s) b (parkingLotId s).
End Slot.

(** Modelled from the spec: the store operations used through the Prisma
    client (section 6 of the spec): lookup of the first facility by name,
    listing, creation of a facility with its slots, a batch of slot-flag
    updates, and deletion cascading to the slots.  Rows are kept in insertion
    order and keys come from two counters.  Every operation succeeds. *)
Module Prisma.
Record db : Type := mk {
  parkingLot : list ParkingLot.t;
  slot : list Slot.t;
  nextParkingLotId : nat;
  nextSlotId : nat
}.

Definition empty : db := mk [] [] 1 1.

(** [findMany()] *)
Definition findMany (d : db) : list ParkingLot.t := parkingLot d.

(** [include: { slots: true }] *)
Definition slots (d : db) (lot : ParkingLot.t) : list Slot.t :=
  filter (fun s => Slot.parkingLotId s =? ParkingLot.id lot)%nat (slot d).

(** [findFirst({ where: { name } })]; an undefined [name] is no filter. *)
Definition findFirst (d : db) (name : option string) : option ParkingLot.t :=
  match name with
  | None => hd_error (parkingLot d)
  | Some n => find (fun lot => (ParkingLot.name lot =? n)%string) (parkingLot d)
  end.

(** The rows of a nested [slots: { create }], keyed from [first_id] on. *)
Fixpoint insert_slots (first_id lot_id : nat) (create_slots : list (Z * bool))
  : list Slot.t :=
  match create_slots with
  | [] => []
  | (slotNumber, status) :: rest =>
      Slot.mk first_id slotNumber status lot_id
        :: insert_slots (S first_id) lot_id rest
  end.

(** [create({ data: { ..., slots: { create } }, include: { slots: true } })] *)
Definition create (d : db) (name location : string) (latitude longitude : number)
    (totalSlots : Z) (create_slots : list (Z * bool))
  : db * (ParkingLot.t * list Slot.t) :=
  let lot := ParkingLot.mk (nextParkingLotId d) name location latitude longitude
               totalSlots in
  let rows := insert_slots (nextSlotId d) (nextParkingLotId d) create_slots in
  (mk (parkingLot d ++ [lot]) (slot d ++ rows)
      (S (nextParkingLotId d)) (nextSlotId d + List.length create_slots),
   (lot, rows)).

(** One entry of [updateMany]: [{ where: { id }, data: { status } }] on the
    slots of facility [lot_id]. *)
Definition update_one (lot_id : nat) (entry : nat * bool) (s : Slot.t) : Slot.t :=
  if ((Slot.id s =? fst entry) && (Slot.parkingLotId s =? lot_id))%nat
  then Slot.set_status (snd entry) s
  else s.

(** [update({ where: { id }, data: { slots: { updateMany } } })] *)
Definition update (d : db) (lot_id : nat) (updateMany : list (nat * bool)) : db :=
  mk (parkingLot d)
     (fold_left (fun rows entry => map (update_one lot_id entry) rows)
                updateMany (slot d))
     (nextParkingLotId d) (nextSlotId d).

(** [delete({ where: { id } })], cascading to the slots. *)
Definition delete (d : db) (lot_id : nat) : db :=
  mk (filter (fun lot => negb (ParkingLot.id lot =? lot_id)%nat) (parkingLot d))
     (filter (fun s => negb (Slot.parkingLotId s =? lot_id)%nat) (slot d))
     (nextParkingLotId d) (nextSlotId d).
End Prisma.

(** ** Responses *)

(** [res.status(code).json(body)]: either a data body or a [{ message }]. *)
Inductive response (A : Type) : Type :=
  | Json (code : Z) (body : A)
  | Message (code : Z) (message : string).

Arguments Json {A} code body.
Arguments Message {A} code message.

(** A facility with its slots included. *)
Definition parkingLotWithSlots : Type := (ParkingLot.t * list Slot.t)%type.

(** ** Request bodies *)

(** The body of [/api/nearby-parking-lots]. *)
Module NearbyBody.
Record t : Type := mk {
  userLat : value;
  userLon : value
}.
End NearbyBody.

(** The body of [/api/lot-details]. *)
Module LotDetailsBody.
Record t : Type := mk {
  parkingLotName : option string;
  userLat : value;
  userLon : value
}.
End LotDetailsBody.

(** [responseData] of [/api/lot-details]. *)
Module ResponseData.
Record t : Type := mk {
  parkingLotName : string;
  latitude : number;
  longitude : number;
  totalSlots : Z;
  availableSlots : Z;
  filledSlots : Z;
  distance : option string
}.
End ResponseData.

(** The body of [/api/update-parking-lot].  The five scalar fields are handed
    to the store as they are, so that they carry the type of their column
    when present; [None] is an absent field.  The two slot-number fields are
    only read by the handler and can hold any JSON value. *)
Module UpdateBody.
Record t : Type := mk {
  name : option string;
  location : option string;
  latitude : option number;
  longitude : option number;
  totalSlots : option Z;
  filledSlots : value;
  freeSlots : value
}.
End UpdateBody.

(** ** The route handlers *)

Definition internal_server_error {A} : response A :=
  Message 500 "Internal Server Error".

(** [app.get('/api/parking-lots')] *)
Definition get_parking_lots (d : Prisma.db) : response (list parkingLotWithSlots) :=
  Json 200 (map (fun lot => (lot, Prisma.slots d lot)) (Prisma.findMany d)).

Section Distance.

(** [calculateDistanceInKM.js] is imported by [index.js] and is not in src:
    the haversine distance is a parameter of the two handlers that call it,
    and so is the formatting done by [Number.prototype.toFixed]. *)
Variable calculateDistanceInKM : value -> value -> number -> number -> number.
Variable toFixed : number -> Z -> string.

(** The filter of lines 50-53. *)
Definition nearbyParkingLots (userLat userLon : value)
    (parkingLots : list ParkingLot.t) : list ParkingLot.t :=
  filter (fun lot =>
            let distance := calculateDistanceInKM userLat userLon
                              (ParkingLot.latitude lot) (ParkingLot.longitude lot) in
            number_le distance (of_Z 10))
         parkingLots.

(** [app.post('/api/nearby-parking-lots')] *)
Definition post_nearby_parking_lots (d : Prisma.db) (body : NearbyBody.t)
  : response (list ParkingLot.t) :=
  let userLat := NearbyBody.userLat body in
  let userLon := NearbyBody.userLon body in
  if negb (to_boolean userLat) || negb (to_boolean userLon) then
    Message 400 "User location (latitude, longitude) is required"
  else
    let parkingLots := Prisma.findMany d in
    Json 200 (nearbyParkingLots userLat userLon parkingLots).

(** [app.post('/api/lot-details')] *)
Definition post_lot_details (d : Prisma.db) (body : LotDetailsBody.t)
  : response ResponseData.t :=
  let userLat := LotDetailsBody.userLat body in
  let userLon := LotDetailsBody.userLon body in
  match Prisma.findFirst d (LotDetailsBody.parkingLotName body) with
  | None => Message 404 "Parking lot not found"
  | Some parkingLot =>
      let slots := Prisma.slots d parkingLot in
      let totalSlots := Z.of_nat (List.length slots) in
      let filledSlots :=
        Z.of_nat (List.length (filter (fun slot => negb (Slot.status slot)) slots)) in
      let availableSlots := totalSlots - filledSlots in
      Json 200
        (ResponseData.mk
           (ParkingLot.name parkingLot)
           (ParkingLot.latitude parkingLot)
           (ParkingLot.longitude parkingLot)
           totalSlots availableSlots filledSlots
           (if to_boolean userLat && to_boolean userLon then
              let distance := calculateDistanceInKM userLat userLon
                                (ParkingLot.latitude parkingLot)
                                (ParkingLot.longitude parkingLot) in
              Some (toFixed distance 2)
            else None))
  end.

End Distance.

(** The message of line 126. *)
Definition invalid_request_message : string :=
  "Invalid request. Ensure name, location, latitude, longitude, totalSlots, filledSlots, and freeSlots are provided.".

(** The guard of line 124. *)
Definition invalid_request (body : UpdateBody.t) : bool :=
  negb (to_boolean (UpdateBody.name body))
  || negb (to_boolean (UpdateBody.location body))
  || negb (to_boolean (UpdateBody.latitude body))
  || negb (to_boolean (UpdateBody.longitude body))
  || negb (to_boolean (UpdateBody.totalSlots body))
  || negb (isArray (UpdateBody.filledSlots body))
  || negb (isArray (UpdateBody.freeSlots body)).

(** The slots generated at lines 137-140. *)
Definition generate_slots (totalSlots : Z) (filledSlots : value)
  : completion (list (Z * bool)) :=
  array_from totalSlots
    (fun index =>
       filled <- includes filledSlots (index + 1) ;;
       Return (index + 1, if filled then true else false)).

(** The callback of [parkingLot.slots.map] at lines 153-160. *)
Definition update_slot (filledSlots freeSlots : value) (slot : Slot.t)
  : completion Slot.t :=
  filled <- includes filledSlots (Slot.slotNumber slot) ;;
  if filled then Return (Slot.set_status true slot)
  else
    free <- includes freeSlots (Slot.slotNumber slot) ;;
    if free then Return (Slot.set_status false slot)
    else Return slot.

(** [app.put('/api/update-parking-lot')]: the response, with its message and
    the facility it carries, and the store after the request. *)
Definition put_update_parking_lot (d : Prisma.db) (body : UpdateBody.t)
  : response (string * parkingLotWithSlots) * Prisma.db :=
  let filledSlots := UpdateBody.filledSlots body in
  let freeSlots := UpdateBody.freeSlots body in
  match Prisma.findFirst d (UpdateBody.name body) with
  | None =>
      if invalid_request body then
        (Message 400 invalid_request_message, d)
      else
        match UpdateBody.name body, UpdateBody.location body,
              UpdateBody.latitude body, UpdateBody.longitude body,
              UpdateBody.totalSlots body with
        | Some name, Some location, Some latitude, Some longitude, Some totalSlots =>
            match generate_slots totalSlots filledSlots with
            | Return create_slots =>
                let (d', parkingLot) :=
                  Prisma.create d name location latitude longitude totalSlots
                    create_slots in
                (Json 201 ("Parking lot created successfully.", parkingLot), d')
            | Throw _ => (internal_server_error, d)
            end
        | _, _, _, _, _ =>
            (* the store refuses a row without one of its columns *)
            (internal_server_error, d)
        end
  | Some parkingLot =>
      match mapM (update_slot filledSlots freeSlots) (Prisma.slots d parkingLot) with
      | Return updatedSlots =>
          let d' := Prisma.update d (ParkingLot.id parkingLot)
                      (map (fun slot => (Slot.id slot, Slot.status slot))
                           updatedSlots) in
          (Json 200 ("Parking lot and slot statuses updated successfully.",
                     (parkingLot, updatedSlots)),
           d')
      | Throw _ => (internal_server_error, d)
      end
  end.

(** [app.delete('/api/parking-lots/:name')]; the name is a route parameter
    and thereby a string. *)
Definition delete_parking_lot (d : Prisma.db) (name : string)
  : response unit * Prisma.db :=
  match Prisma.findFirst d (Some name) with
  | None => (Message 404 ("Parking lot '" ++ name ++ "' not found"), d)
  | Some parkingLot =>
      let d' := Prisma.delete d (ParkingLot.id parkingLot) in
      (Message 200 ("Parking lot '" ++ name ++ "' deleted successfully"), d')
  end.

(** ** Specification vocabulary *)

(** The store invariant: keys are unique and below their counters, names
    are unique, and every slot row belongs to a stored facility. *)
Record wf (d : Prisma.db) : Prop := mk_wf {
  wf_lot_ids : NoDup (map ParkingLot.id (Prisma.parkingLot d));
  wf_names : NoDup (map ParkingLot.name (Prisma.parkingLot d));
  wf_slot_ids : NoDup (map Slot.id (Prisma.slot d));
  wf_lot_fresh :
    Forall (fun lot => (ParkingLot.id lot < Prisma.nextParkingLotId d)%nat)
           (Prisma.parkingLot d);
  wf_slot_fresh :
    Forall (fun s => (Slot.id s < Prisma.nextSlotId d)%nat) (Prisma.slot d);
  wf_owner :
    Forall (fun s => In (Slot.parkingLotId s)
                        (map ParkingLot.id (Prisma.parkingLot d)))
           (Prisma.slot d)
}.

(** The stores that the two writing routes can produce from the empty one. *)
Inductive reachable : Prisma.db -> Prop :=
  | reachable_empty : reachable Prisma.empty
  | reachable_update d body :
      reachable d -> reachable (snd (put_update_parking_lot d body))
  | reachable_delete d name :
      reachable d -> reachable (snd (delete_parking_lot d name)).

(** The JSON value [v] is the slot number [k]. *)
Definition is_number (k : Z) (v : value) : Prop :=
  match v with
  | VNum (Finite q) => (q == inject_Z k)%Q
  | _ => False
  end.

(** The slot number [k] appears in a list of JSON values. *)
Definition appears (k : Z) (elements : list value) : Prop :=
  Exists (is_number k) elements.

(** The numbers 1 .. n in order (none when n < 1). *)
Definition one_to (n : Z) : list Z :=
  map (fun i => Z.of_nat i + 1) (seq 0 (Z.to_nat n)).

(** A distance of at most [r] kilometres. *)
Definition within_km (r : Q) (distance : number) : Prop :=
  match distance with
  | Finite q => (q <= r)%Q
  | Infinity negative => negative = true
  | NaN => False
  end.

(** The value has an [includes] method: it is an array or a string. *)
Definition has_includes (v : value) : bool :=
  match v with
  | VArr _ | VStr _ => true
  | _ => false
  end.

(** The outcome of the membership test where it does not throw. *)
Definition listed (v : value) (k : Z) : bool :=
  match includes v k with
  | Return b => b
  | Throw _ => false
  end.

(** The flag policy of an update: fill first, then free, else keep. *)
Definition reconcile (filledSlots freeSlots : value) (slot : Slot.t) : Slot.t :=
  if listed filledSlots (Slot.slotNumber slot) then Slot.set_status true slot
  else if listed freeSlots (Slot.slotNumber slot) then Slot.set_status false slot
  else slot.

(** The number of slots whose flag is [b]. *)
Definition count_status (b : bool) (slots : list Slot.t) : Z :=
  Z.of_nat (List.length (filter (fun s => Bool.eqb (Slot.status s) b) slots)).

(** A coordinate field that the creation guard takes as not provided. *)
Definition zero_or_absent (c : option number) : Prop :=
  match c with
  | None | Some NaN => True
  | Some (Infinity _) => False
  | Some (Finite q) => (q == 0)%Q
  end.

(** ** Sample requests *)

Definition slot_numbers (l : list Z) : value := VArr (map (fun k => VNum (of_Z k)) l).

(** The request of the spec's example: "Lot-A", three slots, slot 2 filled. *)
Definition lot_A : UpdateBody.t :=
  UpdateBody.mk (Some "Lot-A") (Some "Main Street")
    (Some (Finite (1297 # 100))) (Some (Finite (7759 # 100)))
    (Some 3) (slot_numbers [2]) (slot_numbers []).

Definition db_A : Prisma.db := snd (put_update_parking_lot Prisma.empty lot_A).

Definition details_A : LotDetailsBody.t :=
  LotDetailsBody.mk (Some "Lot-A") VUndefined VUndefined.

(** A creation request with [totalSlots: 0]. *)
Definition lot_Z : UpdateBody.t :=
  UpdateBody.mk (Some "Lot-Z") (Some "Main Street")
    (Some (Finite (1297 # 100))) (Some (Finite (7759 # 100)))
    (Some 0) (slot_numbers []) (slot_numbers []).

(** The second request of the spec's example: slots 1 and 3 filled, slot 2
    freed. *)
Definition swap_A : UpdateBody.t :=
  UpdateBody.mk (Some "Lot-A") None None None None
    (slot_numbers [1; 3]) (slot_numbers [2]).

(** An update of "Lot-A" that names slot 3 in both lists. *)
Definition both_A : UpdateBody.t :=
  UpdateBody.mk (Some "Lot-A") None None None None
    (slot_numbers [3]) (slot_numbers [3; 2]).

(** An update of "Lot-A" with slot numbers that do not exist. *)
Definition stray_A : UpdateBody.t :=
  UpdateBody.mk (Some "Lot-A") None None None None
    (slot_numbers [99]) (slot_numbers [0; -4]).

(** An update of "Lot-A" with two empty lists. *)
Definition none_A : UpdateBody.t :=
  UpdateBody.mk (Some "Lot-A") None None None None
    (slot_numbers []) (slot_numbers []).

(** An update of "Lot-A" that fills every slot and has no [freeSlots]. *)
Definition fill_all_A : UpdateBody.t :=
  UpdateBody.mk (Some "Lot-A") None None None None
    (slot_numbers [1; 2; 3]) VUndefined.

(** A creation request with a negative [totalSlots]. *)
Definition lot_N : UpdateBody.t :=
  UpdateBody.mk (Some "Lot-N") (Some "Main Street")
    (Some (Finite (1297 # 100))) (Some (Finite (7759 # 100)))
    (Some (-1)) (slot_numbers []) (slot_numbers []).

Definition db_N : Prisma.db := snd (put_update_parking_lot Prisma.empty lot_N).

Definition details_N : LotDetailsBody.t :=
  LotDetailsBody.mk (Some "Lot-N") VUndefined VUndefined.

(** A user on the equator. *)
Definition equator : NearbyBody.t :=
  NearbyBody.mk (VNum (Finite 0)) (VNum (Finite (7759 # 100))).

(** A stand-in for the distance: the longitude east of the user, at a
    hundred kilometres per degree. *)
Definition flat_distance (userLat userLon : value) (latitude longitude : number)
  : number :=
  match userLon, longitude with
  | VNum (Finite a), Finite b => Finite ((b - a) * 100)%Q
  | _, _ => NaN
  end.

Definition no_digits (distance : number) (digits : Z) : string := "".

(** The stored row of "Lot-A". *)
Definition facility_A : ParkingLot.t :=
  ParkingLot.mk 1 "Lot-A" "Main Street" (Finite (1297 # 100))
    (Finite (7759 # 100)) 3.

(** A second facility, "Lot-B", with two slots, the first one filled. *)
Definition lot_B : UpdateBody.t :=
  UpdateBody.mk (Some "Lot-B") (Some "Ring Road")
    (Some (Finite (1301 # 100))) (Some (Finite (7762 # 100)))
    (Some 2) (slot_numbers [1]) (slot_numbers [2]).

Definition facility_B : ParkingLot.t :=
  ParkingLot.mk 2 "Lot-B" "Ring Road" (Finite (1301 # 100))
    (Finite (7762 # 100)) 2.

Definition db_AB : Prisma.db := snd (put_update_parking_lot db_A lot_B).

(** An update of "Lot-A" whose scalar fields differ from the stored ones. *)
Definition resize_A : UpdateBody.t :=
  UpdateBody.mk (Some "Lot-A") (Some "Elsewhere") (Some (Finite 1)) (Some (Finite 1))
    (Some 50) (slot_numbers [1; 3]) (slot_numbers [2]).

(** An update of "Lot-A" with a [filledSlots] that is no list. *)
Definition broken_A : UpdateBody.t :=
  UpdateBody.mk (Some "Lot-A") None None None None VNull (slot_numbers []).

(** A creation request with 2^32 slots. *)
Definition lot_G : UpdateBody.t :=
  UpdateBody.mk (Some "Lot-G") (Some "Main Street")
    (Some (Finite (1297 # 100))) (Some (Finite (7759 # 100)))
    (Some 4294967296) (slot_numbers [2]) (slot_numbers []).

(** A creation request on the equator. *)
Definition lot_E : UpdateBody.t :=
  UpdateBody.mk (Some "Lot-E") (Some "Quito")
    (Some (Finite 0)) (Some (Finite (-785 # 10)))
    (Some 2) (slot_numbers []) (slot_numbers []).

(** ** Membership and the exception monad *)

Lemma includes_has_includes v k :
  has_includes v = true -> includes v k = Return (listed v k).
Proof.
  unfold listed. destruct v; simpl; intros H; try discriminate; reflexivity.
Qed.

Lemma includes_throws v k :
  has_includes v = false -> includes v k = Throw TypeError.
Proof.
  destruct v; simpl; intros H; try discriminate; reflexivity.
Qed.

Lemma listed_appears elements k :
  listed (VArr elements) k = true <-> appears k elements.
Proof.
  unfold listed, appears. simpl. rewrite existsb_exists, Exists_exists.
  split; intros [v [Hin Hv]]; exists v; split; auto.
  - destruct v as [| | |[| |q]| | |]; simpl in *; try discriminate.
    now apply Qeq_bool_iff.
  - destruct v as [| | |[| |q]| | |]; simpl in *; try contradiction.
    now apply Qeq_bool_iff.
Qed.

Lemma listed_slot_numbers l k :
  listed (slot_numbers l) k = true <-> In k l.
Proof.
  unfold slot_numbers. rewrite listed_appears. unfold appears.
  rewrite Exists_exists. split.
  - intros [v [Hin Hv]]. apply in_map_iff in Hin as [z [<- Hz]].
    simpl in Hv. rewrite (proj1 (inject_Z_injective z k) Hv) in Hz. exact Hz.
  - intros Hin. exists (VNum (of_Z k)). split.
    + apply in_map_iff. now exists k.
    + simpl. reflexivity.
Qed.

Lemma mapM_Return {A B} (f : A -> completion B) (g : A -> B) l :
  (forall a, In a l -> f a = Return (g a)) ->
  mapM f l = Return (map g l).
Proof.
  induction l as [|a l IH]; simpl; intros H; [reflexivity|].
  rewrite (H a) by auto. simpl. rewrite IH by auto. reflexivity.
Qed.

Lemma mapM_Throw {A B} (f : A -> completion B) l a e :
  In a l -> (forall x, In x l -> f x = Throw e \/ exists b, f x = Return b) ->
  f a = Throw e -> mapM f l = Throw e.
Proof.
  induction l as [|x l IH]; simpl; intros Hin Hall Ha; [contradiction|].
  destruct Hin as [->|Hin].
  - rewrite Ha. reflexivity.
  - destruct (Hall x (or_introl eq_refl)) as [Hx|[b Hx]]; rewrite Hx; simpl.
    + reflexivity.
    + rewrite IH; auto.
Qed.

Lemma update_slot_reconcile filledSlots freeSlots slot :
  has_includes filledSlots = true ->
  (listed filledSlots (Slot.slotNumber slot) = false ->
   has_includes freeSlots = true) ->
  update_slot filledSlots freeSlots slot
  = Return (reconcile filledSlots freeSlots slot).
Proof.
  intros Hf Hr. unfold update_slot, reconcile.
  rewrite (includes_has_includes _ _ Hf). simpl.
  destruct (listed filledSlots (Slot.slotNumber slot)); [reflexivity|].
  rewrite (includes_has_includes _ _ (Hr eq_refl)). simpl.
  destruct (listed freeSlots (Slot.slotNumber slot)); reflexivity.
Qed.

Lemma update_slot_outcome filledSlots freeSlots slot :
  update_slot filledSlots freeSlots slot = Throw TypeError
  \/ exists b, update_slot filledSlots freeSlots slot = Return b.
Proof.
  unfold update_slot.
  destruct (has_includes filledSlots) eqn:Hf.
  - rewrite (includes_has_includes _ _ Hf). simpl.
    destruct (listed filledSlots (Slot.slotNumber slot)); [eauto|].
    destruct (has_includes freeSlots) eqn:Hr.
    + rewrite (includes_has_includes _ _ Hr). simpl.
      destruct (listed freeSlots (Slot.slotNumber slot)); eauto.
    + rewrite (includes_throws _ _ Hr). now left.
  - rewrite (includes_throws _ _ Hf). now left.
Qed.

Lemma update_slot_throws filledSlots freeSlots slot :
  update_slot filledSlots freeSlots slot = Throw TypeError <->
  has_includes filledSlots = false
  \/ (has_includes freeSlots = false
      /\ includes filledSlots (Slot.slotNumber slot) = Return false).
Proof.
  unfold update_slot.
  destruct (has_includes filledSlots) eqn:Hf.
  - rewrite (includes_has_includes _ _ Hf). simpl.
    destruct (listed filledSlots (Slot.slotNumber slot)).
    + split; [discriminate|]. intros [H|[_ H]]; discriminate.
    + destruct (has_includes freeSlots) eqn:Hr.
      * rewrite (includes_has_includes _ _ Hr). simpl.
        destruct (listed freeSlots (Slot.slotNumber slot));
          (split; [discriminate|]; intros [H|[H _]]; discriminate).
      * rewrite (includes_throws _ _ Hr). simpl. split; auto.
  - rewrite (includes_throws _ _ Hf). simpl. split; auto.
Qed.

(** ** The batch update of the store *)

Lemma set_status_same s : Slot.set_status (Slot.status s) s = s.
Proof. destruct s; reflexivity. Qed.

Lemma reconcile_only_status filledSlots freeSlots s :
  reconcile filledSlots freeSlots s
  = Slot.set_status (Slot.status (reconcile filledSlots freeSlots s)) s.
Proof.
  unfold reconcile.
  destruct (listed filledSlots _); [reflexivity|].
  destruct (listed freeSlots _); [reflexivity|].
  symmetry; apply set_status_same.
Qed.

Lemma update_one_id lot e s : Slot.id (Prisma.update_one lot e s) = Slot.id s.
Proof. unfold Prisma.update_one. destruct (_ && _); reflexivity. Qed.

Lemma update_one_owner lot e s :
  Slot.parkingLotId (Prisma.update_one lot e s) = Slot.parkingLotId s.
Proof. unfold Prisma.update_one. destruct (_ && _); reflexivity. Qed.

Lemma fold_update_rows lot entries rows :
  fold_left (fun rows entry => map (Prisma.update_one lot entry) rows) entries rows
  = map (fun s => fold_left (fun s entry => Prisma.update_one lot entry s) entries s)
        rows.
Proof.
  revert rows. induction entries as [|e entries IH]; simpl; intros rows.
  - symmetry. apply map_id.
  - rewrite IH, map_map. reflexivity.
Qed.

Lemma entries_miss lot entries s :
  (forall e, In e entries -> fst e <> Slot.id s \/ Slot.parkingLotId s <> lot) ->
  fold_left (fun s entry => Prisma.update_one lot entry s) entries s = s.
Proof.
  induction entries as [|e entries IH]; simpl; intros H; [reflexivity|].
  assert (He : Prisma.update_one lot e s = s).
  { unfold Prisma.update_one.
    destruct (H e (or_introl eq_refl)) as [Hn|Hn].
    - apply not_eq_sym, Nat.eqb_neq in Hn. rewrite Hn. reflexivity.
    - apply Nat.eqb_neq in Hn. rewrite Hn, andb_false_r. reflexivity. }
  rewrite He. apply IH. auto.
Qed.

Lemma entries_hit lot entries s b :
  Slot.parkingLotId s = lot ->
  NoDup (map fst entries) ->
  In (Slot.id s, b) entries ->
  fold_left (fun s entry => Prisma.update_one lot entry s) entries s
  = Slot.set_status b s.
Proof.
  intros Hlot. revert s Hlot.
  induction entries as [|e entries IH]; simpl; intros s Hlot Hnd Hin;
    [contradiction|].
  inversion Hnd as [|x l Hnotin Hnd']; subst x l.
  destruct Hin as [->|Hin].
  - unfold Prisma.update_one at 2. simpl.
    rewrite Nat.eqb_refl, Hlot, Nat.eqb_refl. simpl.
    apply entries_miss. intros e He. left. simpl.
    intros Heq. apply Hnotin. simpl. rewrite <- Heq. now apply in_map.
  - assert (Hne : fst e <> Slot.id s).
    { intros Heq. apply Hnotin. rewrite Heq.
      change (Slot.id s) with (fst (Slot.id s, b)). now apply in_map. }
    assert (He : Prisma.update_one (Slot.parkingLotId s) e s = s).
    { unfold Prisma.update_one.
      apply not_eq_sym, Nat.eqb_neq in Hne. rewrite Hne. reflexivity. }
    subst lot. rewrite He. now apply IH.
Qed.

Lemma NoDup_map_filter {A B} (f : A -> B) (p : A -> bool) l :
  NoDup (map f l) -> NoDup (map f (filter p l)).
Proof.
  induction l as [|a l IH]; simpl; intros H; [constructor|].
  inversion H as [|x xs Hnotin Hnd]; subst.
  destruct (p a); simpl; auto.
  constructor; auto.
  intros Hin. apply Hnotin.
  apply in_map_iff in Hin as [y [Hy Hin]].
  apply filter_In in Hin as [Hin _].
  rewrite <- Hy. now apply in_map.
Qed.

(** What a batch built from the facility's own slots does to the table:
    each slot of the facility takes its new flag, every other row stays. *)
Lemma update_rows lot (g : Slot.t -> Slot.t) rows :
  NoDup (map Slot.id rows) ->
  (forall s, g s = Slot.set_status (Slot.status (g s)) s) ->
  fold_left (fun rows entry => map (Prisma.update_one lot entry) rows)
    (map (fun s => (Slot.id s, Slot.status s))
         (map g (filter (fun s => Slot.parkingLotId s =? lot)%nat rows)))
    rows
  = map (fun s => if (Slot.parkingLotId s =? lot)%nat then g s else s) rows.
Proof.
  intros Hnd Hg. rewrite fold_update_rows. apply map_ext_in. intros s Hs.
  assert (Hid : forall x, Slot.id (g x) = Slot.id x).
  { intros x. rewrite (Hg x). reflexivity. }
  destruct (Slot.parkingLotId s =? lot)%nat eqn:Hown.
  - apply Nat.eqb_eq in Hown. rewrite (Hg s).
    apply entries_hit; auto.
    + rewrite !map_map. simpl.
      rewrite (map_ext _ Slot.id) by (intros; apply Hid).
      now apply NoDup_map_filter.
    + rewrite map_map. apply in_map_iff. exists s. rewrite Hid. split; auto.
      apply filter_In. split; auto. now apply Nat.eqb_eq.
  - apply entries_miss. intros e He. right. now apply Nat.eqb_neq.
Qed.

Lemma filter_map_commute {A} (p : A -> bool) (h : A -> A) l :
  (forall x, p (h x) = p x) -> filter p (map h l) = map h (filter p l).
Proof.
  intros Hp. induction l as [|a l IH]; simpl; [reflexivity|].
  rewrite Hp. destruct (p a); simpl; now rewrite IH.
Qed.

Lemma update_keeps_ids lot entries rows :
  map Slot.id
    (fold_left (fun rows entry => map (Prisma.update_one lot entry) rows) entries rows)
  = map Slot.id rows.
Proof.
  revert rows. induction entries as [|e entries IH]; simpl; intros rows;
    [reflexivity|].
  rewrite IH, map_map. apply map_ext. intros s. apply update_one_id.
Qed.

Lemma update_keeps_owners lot entries rows :
  map Slot.parkingLotId
    (fold_left (fun rows entry => map (Prisma.update_one lot entry) rows) entries rows)
  = map Slot.parkingLotId rows.
Proof.
  revert rows. induction entries as [|e entries IH]; simpl; intros rows;
    [reflexivity|].
  rewrite IH, map_map. apply map_ext. intros s. apply update_one_owner.
Qed.

Lemma update_one_number lot e s :
  Slot.slotNumber (Prisma.update_one lot e s) = Slot.slotNumber s.
Proof. unfold Prisma.update_one. destruct (_ && _); reflexivity. Qed.

Lemma update_keeps_numbers lot entries rows :
  map Slot.slotNumber
    (fold_left (fun rows entry => map (Prisma.update_one lot entry) rows) entries rows)
  = map Slot.slotNumber rows.
Proof.
  revert rows. induction entries as [|e entries IH]; simpl; intros rows;
    [reflexivity|].
  rewrite IH, map_map. apply map_ext. intros s. apply update_one_number.
Qed.

(** The table of slots after reconciling the facility [lot]. *)
Lemma slot_after_reconcile d lot filledSlots freeSlots :
  NoDup (map Slot.id (Prisma.slot d)) ->
  Prisma.slot
    (Prisma.update d (ParkingLot.id lot)
       (map (fun s => (Slot.id s, Slot.status s))
            (map (reconcile filledSlots freeSlots) (Prisma.slots d lot))))
  = map (fun s => if (Slot.parkingLotId s =? ParkingLot.id lot)%nat
                  then reconcile filledSlots freeSlots s else s)
        (Prisma.slot d).
Proof.
  intros Hnd. unfold Prisma.update, Prisma.slots. simpl.
  apply update_rows; auto. intros s. apply reconcile_only_status.
Qed.

Lemma reconcile_owner filledSlots freeSlots s :
  Slot.parkingLotId (reconcile filledSlots freeSlots s) = Slot.parkingLotId s.
Proof. rewrite reconcile_only_status. reflexivity. Qed.

Lemma reconcile_id filledSlots freeSlots s :
  Slot.id (reconcile filledSlots freeSlots s) = Slot.id s.
Proof. rewrite reconcile_only_status. reflexivity. Qed.

Lemma reconcile_number filledSlots freeSlots s :
  Slot.slotNumber (reconcile filledSlots freeSlots s) = Slot.slotNumber s.
Proof. rewrite reconcile_only_status. reflexivity. Qed.

(** The slots of the reconciled facility, read back from the store. *)
Lemma slots_after_reconcile d lot filledSlots freeSlots :
  NoDup (map Slot.id (Prisma.slot d)) ->
  Prisma.slots
    (Prisma.update d (ParkingLot.id lot)
       (map (fun s => (Slot.id s, Slot.status s))
            (map (reconcile filledSlots freeSlots) (Prisma.slots d lot))))
    lot
  = map (reconcile filledSlots freeSlots) (Prisma.slots d lot).
Proof.
  intros Hnd. unfold Prisma.slots at 1. rewrite slot_after_reconcile by auto.
  rewrite filter_map_commute.
  - unfold Prisma.slots. apply map_ext_in. intros s Hs.
    apply filter_In in Hs as [_ Hs]. now rewrite Hs.
  - intros s. destruct (Slot.parkingLotId s =? ParkingLot.id lot)%nat eqn:E.
    + now rewrite reconcile_owner, E.
    + exact E.
Qed.

(** ** The update path of the handler *)

Lemma put_update_existing d body parkingLot :
  Prisma.findFirst d (UpdateBody.name body) = Some parkingLot ->
  put_update_parking_lot d body
  = match mapM (update_slot (UpdateBody.filledSlots body) (UpdateBody.freeSlots body))
               (Prisma.slots d parkingLot) with
    | Return updatedSlots =>
        (Json 200 ("Parking lot and slot statuses updated successfully.",
                   (parkingLot, updatedSlots)),
         Prisma.update d (ParkingLot.id parkingLot)
           (map (fun slot => (Slot.id slot, Slot.status slot)) updatedSlots))
    | Throw _ => (internal_server_error, d)
    end.
Proof.
  intros H. unfold put_update_parking_lot. rewrite H. reflexivity.
Qed.

Lemma put_update_reconciles d body parkingLot :
  Prisma.findFirst d (UpdateBody.name body) = Some parkingLot ->
  has_includes (UpdateBody.filledSlots body) = true ->
  has_includes (UpdateBody.freeSlots body) = true ->
  put_update_parking_lot d body
  = (Json 200 ("Parking lot and slot statuses updated successfully.",
               (parkingLot,
                map (reconcile (UpdateBody.filledSlots body) (UpdateBody.freeSlots body))
                    (Prisma.slots d parkingLot))),
     Prisma.update d (ParkingLot.id parkingLot)
       (map (fun slot => (Slot.id slot, Slot.status slot))
            (map (reconcile (UpdateBody.filledSlots body) (UpdateBody.freeSlots body))
                 (Prisma.slots d parkingLot)))).
Proof.
  intros Hfind Hf Hr. rewrite (put_update_existing _ _ _ Hfind).
  rewrite (mapM_Return _ (reconcile (UpdateBody.filledSlots body)
                                    (UpdateBody.freeSlots body))).
  - reflexivity.
  - intros s _. apply update_slot_reconcile; auto.
Qed.

(** ** The creation path of the handler *)

Lemma generate_slots_array totalSlots elements :
  totalSlots <= max_array_length ->
  generate_slots totalSlots (VArr elements)
  = Return (map (fun k => (k, listed (VArr elements) k)) (one_to totalSlots)).
Proof.
  intros Hlen. unfold generate_slots, array_from, one_to.
  apply Z.ltb_ge in Hlen. rewrite Hlen. rewrite map_map.
  apply mapM_Return. intros i _. simpl.
  unfold listed. simpl. now destruct (existsb _ elements).
Qed.

Lemma generate_slots_too_long totalSlots filledSlots :
  max_array_length < totalSlots ->
  generate_slots totalSlots filledSlots = Throw RangeError.
Proof.
  intros Hlen. unfold generate_slots, array_from.
  apply Z.ltb_lt in Hlen. now rewrite Hlen.
Qed.

Lemma valid_request body :
  invalid_request body = false ->
  exists name location latitude longitude totalSlots filled free,
    body = UpdateBody.mk (Some name) (Some location) (Some latitude)
             (Some longitude) (Some totalSlots) (VArr filled) (VArr free)
    /\ name <> "" /\ totalSlots <> 0.
Proof.
  unfold invalid_request.
  destruct body as [[n|] [l|] [la|] [lo|] [t|] f r]; simpl;
    rewrite ?orb_true_r; try discriminate.
  destruct f; simpl; rewrite ?orb_true_r; try discriminate.
  destruct r; simpl; rewrite ?orb_true_r; try discriminate.
  intros H. repeat (apply orb_false_elim in H as [H ?]).
  exists n, l, la, lo, t, elements, elements0. split; [reflexivity|].
  split.
  - intros ->. discriminate.
  - intros ->. discriminate.
Qed.

Lemma put_update_creates d name location latitude longitude totalSlots filled free :
  let body := UpdateBody.mk (Some name) (Some location) (Some latitude)
                (Some longitude) (Some totalSlots) (VArr filled) (VArr free) in
  Prisma.findFirst d (Some name) = None ->
  invalid_request body = false ->
  totalSlots <= max_array_length ->
  put_update_parking_lot d body
  = (Json 201 ("Parking lot created successfully.",
               snd (Prisma.create d name location latitude longitude totalSlots
                      (map (fun k => (k, listed (VArr filled) k)) (one_to totalSlots)))),
     fst (Prisma.create d name location latitude longitude totalSlots
            (map (fun k => (k, listed (VArr filled) k)) (one_to totalSlots)))).
Proof.
  intros body Hfind Hvalid Hlen. unfold put_update_parking_lot.
  cbn [UpdateBody.name UpdateBody.location UpdateBody.latitude UpdateBody.longitude
       UpdateBody.totalSlots UpdateBody.filledSlots UpdateBody.freeSlots body].
  rewrite Hfind. fold body. rewrite Hvalid.
  rewrite generate_slots_array by assumption. reflexivity.
Qed.

(** A request that passes the guard with a totalSlots above the largest
    array length: the allocation throws, nothing is stored. *)
Lemma put_update_too_long d name location latitude longitude totalSlots filled free :
  let body := UpdateBody.mk (Some name) (Some location) (Some latitude)
                (Some longitude) (Some totalSlots) (VArr filled) (VArr free) in
  Prisma.findFirst d (Some name) = None ->
  invalid_request body = false ->
  max_array_length < totalSlots ->
  put_update_parking_lot d body = (internal_server_error, d).
Proof.
  intros body Hfind Hvalid Hlen. unfold put_update_parking_lot.
  cbn [UpdateBody.name UpdateBody.location UpdateBody.latitude UpdateBody.longitude
       UpdateBody.totalSlots UpdateBody.filledSlots UpdateBody.freeSlots body].
  rewrite Hfind. fold body. rewrite Hvalid.
  rewrite generate_slots_too_long by assumption. reflexivity.
Qed.

(** The two reconciliations of "Lot-A" in the spec, as the store has them. *)
Example reconcile_lot_A :
  map (fun s => (Slot.slotNumber s, Slot.status s)) (Prisma.slot db_A)
  = [(1, false); (2, true); (3, false)]
  /\ map (fun s => (Slot.slotNumber s, Slot.status s))
         (Prisma.slot (snd (put_update_parking_lot db_A swap_A)))
     = [(1, true); (2, false); (3, true)].
Proof. split; reflexivity. Qed.

(** ** The store invariant *)

Lemma findFirst_some d n lot :
  Prisma.findFirst d (Some n) = Some lot ->
  In lot (Prisma.parkingLot d) /\ ParkingLot.name lot = n.
Proof.
  simpl. intros H. apply find_some in H as [Hin Hn].
  split; auto. now apply String.eqb_eq.
Qed.

Lemma findFirst_none d n :
  Prisma.findFirst d (Some n) = None <->
  ~ In n (map ParkingLot.name (Prisma.parkingLot d)).
Proof.
  simpl. split.
  - intros H Hin. apply in_map_iff in Hin as [lot [Hn Hin]].
    pose proof (find_none _ _ H lot Hin) as Hf. simpl in Hf.
    rewrite Hn, String.eqb_refl in Hf. discriminate.
  - intros H. destruct (find _ _) as [lot|] eqn:E; [|reflexivity].
    apply find_some in E as [Hin Hn]. apply String.eqb_eq in Hn.
    exfalso. apply H. rewrite <- Hn. now apply in_map.
Qed.

Lemma findFirst_in d name lot :
  Prisma.findFirst d name = Some lot -> In lot (Prisma.parkingLot d).
Proof.
  destruct name as [n|]; intros H.
  - now apply findFirst_some in H.
  - simpl in H. destruct (Prisma.parkingLot d); [discriminate|].
    injection H as <-. now left.
Qed.

Lemma insert_slots_ids first lot create_slots :
  map Slot.id (Prisma.insert_slots first lot create_slots)
  = seq first (List.length create_slots).
Proof.
  revert first. induction create_slots as [|[k b] l IH]; simpl; intros first;
    [reflexivity|].
  now rewrite IH.
Qed.

Lemma insert_slots_numbers first lot create_slots :
  map Slot.slotNumber (Prisma.insert_slots first lot create_slots)
  = map fst create_slots.
Proof.
  revert first. induction create_slots as [|[k b] l IH]; simpl; intros first;
    [reflexivity|].
  now rewrite IH.
Qed.

Lemma insert_slots_owner first lot create_slots s :
  In s (Prisma.insert_slots first lot create_slots) -> Slot.parkingLotId s = lot.
Proof.
  revert first. induction create_slots as [|[k b] l IH]; simpl; intros first;
    [contradiction|].
  intros [<-|H]; [reflexivity|]. eapply IH; eauto.
Qed.

Lemma insert_slots_flag first lot create_slots s :
  In s (Prisma.insert_slots first lot create_slots) ->
  In (Slot.slotNumber s, Slot.status s) create_slots.
Proof.
  revert first. induction create_slots as [|[k b] l IH]; simpl; intros first;
    [contradiction|].
  intros [<-|H]; [now left|]. right. eapply IH; eauto.
Qed.

Lemma wf_empty : wf Prisma.empty.
Proof. split; simpl; constructor. Qed.

Lemma wf_update d lot entries : wf d -> wf (Prisma.update d lot entries).
Proof.
  intros [H1 H2 H3 H4 H5 H6]. split; simpl; auto.
  - now rewrite update_keeps_ids.
  - apply Forall_forall. intros s Hs.
    apply (in_map Slot.id) in Hs. rewrite update_keeps_ids in Hs.
    apply in_map_iff in Hs as [s' [<- Hs']].
    now apply (proj1 (Forall_forall _ _) H5).
  - apply Forall_forall. intros s Hs.
    apply (in_map Slot.parkingLotId) in Hs. rewrite update_keeps_owners in Hs.
    apply in_map_iff in Hs as [s' [<- Hs']].
    now apply (proj1 (Forall_forall _ _) H6).
Qed.

Lemma wf_delete d lot : wf d -> wf (Prisma.delete d lot).
Proof.
  intros [H1 H2 H3 H4 H5 H6]. split; simpl.
  - now apply NoDup_map_filter.
  - now apply NoDup_map_filter.
  - now apply NoDup_map_filter.
  - apply Forall_forall. intros l Hl. apply filter_In in Hl as [Hl _].
    now apply (proj1 (Forall_forall _ _) H4).
  - apply Forall_forall. intros s Hs. apply filter_In in Hs as [Hs _].
    now apply (proj1 (Forall_forall _ _) H5).
  - apply Forall_forall. intros s Hs. apply filter_In in Hs as [Hs Hne].
    pose proof (proj1 (Forall_forall _ _) H6 s Hs) as Hown.
    apply in_map_iff in Hown as [l [Hid Hl]].
    apply in_map_iff. exists l. split; auto.
    apply filter_In. split; auto. now rewrite Hid.
Qed.

Lemma wf_create d name location latitude longitude totalSlots create_slots :
  wf d ->
  ~ In name (map ParkingLot.name (Prisma.parkingLot d)) ->
  wf (fst (Prisma.create d name location latitude longitude totalSlots create_slots)).
Proof.
  intros [H1 H2 H3 H4 H5 H6] Hname. split; simpl.
  - rewrite map_app. simpl. apply NoDup_app; auto.
    + constructor; [intros []|constructor].
    + intros x Hx [<-|[]]. apply in_map_iff in Hx as [l [Hid Hl]].
      pose proof (proj1 (Forall_forall _ _) H4 l Hl) as Hlt. simpl in Hlt. lia.
  - rewrite map_app. simpl. apply NoDup_app; auto.
    + constructor; [intros []|constructor].
    + intros x Hx [<-|[]]. contradiction.
  - rewrite map_app, insert_slots_ids. apply NoDup_app; auto.
    + apply seq_NoDup.
    + intros x Hx Hseq. apply in_seq in Hseq.
      apply in_map_iff in Hx as [s [Hid Hs]].
      pose proof (proj1 (Forall_forall _ _) H5 s Hs) as Hlt. simpl in Hlt. lia.
  - apply Forall_app. split.
    + eapply Forall_impl; [|exact H4]. simpl. intros; lia.
    + repeat constructor.
  - apply Forall_app. split.
    + eapply Forall_impl; [|exact H5]. simpl. intros; lia.
    + apply Forall_forall. intros s Hs.
      apply (in_map Slot.id) in Hs. rewrite insert_slots_ids in Hs.
      apply in_seq in Hs. lia.
  - rewrite map_app. apply Forall_app. split.
    + eapply Forall_impl; [|exact H6]. simpl. intros s Hs.
      apply in_or_app. now left.
    + apply Forall_forall. intros s Hs. apply insert_slots_owner in Hs.
      rewrite Hs. apply in_or_app. right. now left.
Qed.

Lemma wf_put_update d body : wf d -> wf (snd (put_update_parking_lot d body)).
Proof.
  intros Hwf.
  destruct (Prisma.findFirst d (UpdateBody.name body)) as [lot|] eqn:Hfind.
  - rewrite (put_update_existing _ _ _ Hfind).
    destruct (mapM _ _); simpl; auto. now apply wf_update.
  - destruct (invalid_request body) eqn:Hvalid.
    + unfold put_update_parking_lot. rewrite Hfind, Hvalid. exact Hwf.
    + destruct (valid_request _ Hvalid)
        as (n & l & la & lo & t & f & r & -> & Hn & Ht).
      destruct (Z_le_gt_dec t max_array_length) as [Hlen|Hlen].
      * rewrite put_update_creates; auto. simpl fst. simpl snd.
        apply wf_create; auto. now apply findFirst_none.
      * rewrite put_update_too_long; auto. lia.
Qed.

Lemma wf_delete_parking_lot d name : wf d -> wf (snd (delete_parking_lot d name)).
Proof.
  intros Hwf. unfold delete_parking_lot.
  destruct (Prisma.findFirst d (Some name)); simpl; auto. now apply wf_delete.
Qed.

(** Every store that the routes can produce satisfies the invariant. *)
Lemma reachable_wf d : reachable d -> wf d.
Proof.
  induction 1.
  - exact wf_empty.
  - now apply wf_put_update.
  - now apply wf_delete_parking_lot.
Qed.

(** ** Derived counters *)

Lemma count_status_total slots :
  count_status true slots + count_status false slots = Z.of_nat (List.length slots).
Proof.
  unfold count_status. induction slots as [|s l IH]; [reflexivity|].
  cbn [filter List.length]. destruct (Slot.status s); cbn [Bool.eqb List.length];
    rewrite !Nat2Z.inj_succ; lia.
Qed.

(** What the lookup reports: its [filledSlots] is the number of slots whose
    flag is false, its [availableSlots] the number of those whose flag is
    true. *)
Lemma lot_details_counters
    (calculateDistanceInKM : value -> value -> number -> number -> number)
    (toFixed : number -> Z -> string) d body code r :
  post_lot_details calculateDistanceInKM toFixed d body = Json code r ->
  exists parkingLot,
    Prisma.findFirst d (LotDetailsBody.parkingLotName body) = Some parkingLot
    /\ ResponseData.totalSlots r = Z.of_nat (List.length (Prisma.slots d parkingLot))
    /\ ResponseData.filledSlots r = count_status false (Prisma.slots d parkingLot)
    /\ ResponseData.availableSlots r = count_status true (Prisma.slots d parkingLot).
Proof.
  unfold post_lot_details.
  destruct (Prisma.findFirst d _) as [lot|]; [|discriminate].
  intros H. injection H as _ <-. exists lot. simpl.
  pose proof (count_status_total (Prisma.slots d lot)) as Htot.
  assert (Hf : Z.of_nat (List.length (filter (fun slot => negb (Slot.status slot))
                                        (Prisma.slots d lot)))
               = count_status false (Prisma.slots d lot)).
  { unfold count_status. do 2 f_equal. }
  rewrite Hf. repeat split; auto. lia.
Qed.

(** C1 (evaluation).  On the facility of the spec's example ("Lot-A", three
    slots, slot 2 occupied) the lot-details lookup reports filledSlots = 2
    and availableSlots = 1: it counts the slots whose flag is false as
    filled, where the claim has filledSlots = 1 and availableSlots = 2. *)
Theorem lot_A_details
    (calculateDistanceInKM : value -> value -> number -> number -> number)
    (toFixed : number -> Z -> string) :
  map Slot.status (Prisma.slots db_A
                     (ParkingLot.mk 1 "Lot-A" "Main Street" (Finite (1297 # 100))
                        (Finite (7759 # 100)) 3))
  = [false; true; false]
  /\ post_lot_details calculateDistanceInKM toFixed db_A details_A
     = Json 200 (ResponseData.mk "Lot-A" (Finite (1297 # 100)) (Finite (7759 # 100))
                   3 1 2 None).
Proof. split; reflexivity. Qed.

(** C2.  After any creation or update, the counters that the lot-details
    lookup returns for a facility satisfy
    availableSlots + filledSlots = totalSlots. *)
Theorem counters_add_up
    (calculateDistanceInKM : value -> value -> number -> number -> number)
    (toFixed : number -> Z -> string) d body details r :
  post_lot_details calculateDistanceInKM toFixed
    (snd (put_update_parking_lot d body)) details = Json 200 r ->
  ResponseData.availableSlots r + ResponseData.filledSlots r
  = ResponseData.totalSlots r.
Proof.
  intros H. apply lot_details_counters in H as (lot & _ & Ht & Hf & Ha).
  rewrite Ht, Hf, Ha. apply count_status_total.
Qed.

Lemma counters_add_up_witness :
  post_lot_details flat_distance no_digits
    (snd (put_update_parking_lot db_A both_A)) details_A
  = Json 200 (ResponseData.mk "Lot-A" (Finite (1297 # 100)) (Finite (7759 # 100))
                3 1 2 None)
  /\ 1 + 2 = 3.
Proof.
  split; [reflexivity|].
  exact (counters_add_up flat_distance no_digits db_A both_A details_A
           (ResponseData.mk "Lot-A" (Finite (1297 # 100)) (Finite (7759 # 100))
              3 1 2 None) eq_refl).
Defined.

(** ** The created facility *)

Lemma find_app_last {A} (p : A -> bool) l x :
  find p l = None -> p x = true -> find p (l ++ [x]) = Some x.
Proof.
  induction l as [|a l IH]; simpl; intros Hnone Hx.
  - now rewrite Hx.
  - destruct (p a); [discriminate|]. auto.
Qed.

Lemma filter_all {A} (p : A -> bool) l :
  (forall x, In x l -> p x = true) -> filter p l = l.
Proof.
  induction l as [|a l IH]; simpl; intros H; [reflexivity|].
  rewrite (H a) by auto. f_equal. auto.
Qed.

Lemma filter_none {A} (p : A -> bool) l :
  (forall x, In x l -> p x = false) -> filter p l = [].
Proof.
  induction l as [|a l IH]; simpl; intros H; [reflexivity|].
  rewrite (H a) by auto. auto.
Qed.

Lemma created_is_found d name location latitude longitude totalSlots create_slots :
  Prisma.findFirst d (Some name) = None ->
  Prisma.findFirst
    (fst (Prisma.create d name location latitude longitude totalSlots create_slots))
    (Some name)
  = Some (fst (snd (Prisma.create d name location latitude longitude totalSlots
                      create_slots))).
Proof.
  simpl. intros H. apply find_app_last; auto. simpl. apply String.eqb_refl.
Qed.

Lemma created_slots d name location latitude longitude totalSlots create_slots :
  wf d ->
  Prisma.slots
    (fst (Prisma.create d name location latitude longitude totalSlots create_slots))
    (fst (snd (Prisma.create d name location latitude longitude totalSlots
                 create_slots)))
  = snd (snd (Prisma.create d name location latitude longitude totalSlots
                create_slots)).
Proof.
  intros [H1 H2 H3 H4 H5 H6]. unfold Prisma.slots. simpl.
  rewrite filter_app, filter_none, filter_all; [reflexivity| |].
  - intros s Hs. apply insert_slots_owner in Hs. rewrite Hs. apply Nat.eqb_refl.
  - intros s Hs. apply Nat.eqb_neq.
    pose proof (proj1 (Forall_forall _ _) H6 s Hs) as Hown. simpl in Hown.
    apply in_map_iff in Hown as [l [Hid Hl]].
    pose proof (proj1 (Forall_forall _ _) H4 l Hl) as Hlt. simpl in Hlt. lia.
Qed.

Lemma one_to_length n : List.length (one_to n) = Z.to_nat n.
Proof. unfold one_to. now rewrite length_map, length_seq. Qed.

Lemma one_to_spec n k : In k (one_to n) <-> 1 <= k <= n.
Proof.
  unfold one_to. rewrite in_map_iff. split.
  - intros [i [<- Hi]]. apply in_seq in Hi. lia.
  - intros Hk. exists (Z.to_nat (k - 1)). split; [lia|].
    apply in_seq. lia.
Qed.

Lemma guard_passes name location latitude longitude totalSlots filled free :
  name <> "" -> location <> "" ->
  ~ zero_or_absent (Some latitude) -> ~ zero_or_absent (Some longitude) ->
  totalSlots <> 0 ->
  invalid_request
    (UpdateBody.mk (Some name) (Some location) (Some latitude) (Some longitude)
       (Some totalSlots) (VArr filled) (VArr free))
  = false.
Proof.
  intros Hn Hl Hla Hlo Ht.
  assert (Hcoord : forall c : number, ~ zero_or_absent (Some c) -> to_boolean c = true).
  { intros [| |q] Hc; cbv [to_boolean number_ToBoolean zero_or_absent] in *.
    - now exfalso.
    - reflexivity.
    - destruct (Qeq_bool q 0) eqn:E; [|reflexivity].
      exfalso. now apply Hc, Qeq_bool_iff. }
  unfold invalid_request.
  cbn [UpdateBody.name UpdateBody.location UpdateBody.latitude UpdateBody.longitude
       UpdateBody.totalSlots UpdateBody.filledSlots UpdateBody.freeSlots isArray].
  cbv [to_boolean option_ToBoolean string_ToBoolean Z_ToBoolean].
  apply String.eqb_neq in Hn, Hl. apply Z.eqb_neq in Ht.
  rewrite Hn, Hl, Ht.
  change (number_ToBoolean latitude) with (to_boolean latitude).
  change (number_ToBoolean longitude) with (to_boolean longitude).
  now rewrite (Hcoord _ Hla), (Hcoord _ Hlo).
Qed.

(** C3 (counterexample).  Two requests for an unseen name with every
    required field present and both slot-number fields lists.  With
    totalSlots = -1 the facility is created with totalSlots -1 and no slot at
    all; with totalSlots = 2^32 the slot array cannot be allocated, the
    request is answered with the internal failure and nothing is created. *)
Lemma created_slots_differ_from_totalSlots :
  put_update_parking_lot Prisma.empty lot_N
  = (Json 201 ("Parking lot created successfully.",
               (ParkingLot.mk 1 "Lot-N" "Main Street" (Finite (1297 # 100))
                  (Finite (7759 # 100)) (-1), [])),
     Prisma.mk [ParkingLot.mk 1 "Lot-N" "Main Street" (Finite (1297 # 100))
                  (Finite (7759 # 100)) (-1)] [] 2 1)
  /\ put_update_parking_lot Prisma.empty lot_G
     = (internal_server_error, Prisma.empty).
Proof. split; reflexivity. Qed.

(** C3 (amended).  A reconcile request for a name that the store does not
    have, with a non-empty name and location, a latitude and a longitude that
    are numbers other than 0, a totalSlots between 1 and 2^32 - 1 and two
    list-shaped slot-number fields, creates the facility: it is stored under
    that name with exactly totalSlots slots, numbered 1 .. totalSlots in this
    order, and the flag of each slot is true exactly when its number appears
    in filledSlots. *)
Theorem creation_generates_slots d name location latitude longitude totalSlots
    filled free :
  let body := UpdateBody.mk (Some name) (Some location) (Some latitude)
                (Some longitude) (Some totalSlots) (VArr filled) (VArr free) in
  wf d ->
  Prisma.findFirst d (Some name) = None ->
  name <> "" -> location <> "" ->
  ~ zero_or_absent (Some latitude) -> ~ zero_or_absent (Some longitude) ->
  1 <= totalSlots <= max_array_length ->
  exists parkingLot slots,
    fst (put_update_parking_lot d body)
    = Json 201 ("Parking lot created successfully.", (parkingLot, slots))
    /\ ParkingLot.name parkingLot = name
    /\ ParkingLot.totalSlots parkingLot = totalSlots
    /\ Prisma.findFirst (snd (put_update_parking_lot d body)) (Some name)
       = Some parkingLot
    /\ Prisma.slots (snd (put_update_parking_lot d body)) parkingLot = slots
    /\ map Slot.slotNumber slots = one_to totalSlots
    /\ Z.of_nat (List.length slots) = totalSlots
    /\ (forall slot, In slot slots ->
          (Slot.status slot = true <-> appears (Slot.slotNumber slot) filled)).
Proof.
  intros body Hwf Hfind Hn Hl Hla Hlo Ht.
  assert (Hvalid : invalid_request body = false).
  { apply guard_passes; auto. lia. }
  pose proof (put_update_creates d name location latitude longitude totalSlots
                filled free Hfind Hvalid (proj2 Ht)) as Hput.
  cbv zeta in Hput. fold body in Hput. rewrite Hput. clear Hput.
  set (create_slots := map (fun k => (k, listed (VArr filled) k)) (one_to totalSlots)).
  exists
    (fst (snd (Prisma.create d name location latitude longitude totalSlots
                 create_slots))),
    (snd (snd (Prisma.create d name location latitude longitude totalSlots
                 create_slots))).
  assert (Hnum : map Slot.slotNumber
                   (snd (snd (Prisma.create d name location latitude longitude
                                totalSlots create_slots)))
                 = one_to totalSlots).
  { simpl. rewrite insert_slots_numbers. unfold create_slots.
    rewrite map_map. simpl. apply map_id. }
  repeat split; auto.
  - now apply created_is_found.
  - now apply created_slots.
  - rewrite <- (length_map Slot.slotNumber), Hnum, one_to_length. lia.
  - intros Hs. apply listed_appears.
    apply insert_slots_flag in H. unfold create_slots in H.
    apply in_map_iff in H as [k [Hk _]]. injection Hk as Hk1 Hk2.
    now rewrite <- Hk1, Hk2.
  - intros Hs. apply listed_appears in Hs.
    apply insert_slots_flag in H. unfold create_slots in H.
    apply in_map_iff in H as [k [Hk _]]. injection Hk as Hk1 Hk2.
    now rewrite <- Hk2, Hk1.
Qed.

Lemma creation_generates_slots_witness :
  exists parkingLot slots,
    fst (put_update_parking_lot Prisma.empty lot_A)
    = Json 201 ("Parking lot created successfully.", (parkingLot, slots))
    /\ ParkingLot.name parkingLot = "Lot-A"
    /\ ParkingLot.totalSlots parkingLot = 3
    /\ Prisma.findFirst (snd (put_update_parking_lot Prisma.empty lot_A))
         (Some "Lot-A")
       = Some parkingLot
    /\ Prisma.slots (snd (put_update_parking_lot Prisma.empty lot_A)) parkingLot
       = slots
    /\ map Slot.slotNumber slots = one_to 3
    /\ Z.of_nat (List.length slots) = 3
    /\ (forall slot, In slot slots ->
          (Slot.status slot = true
           <-> appears (Slot.slotNumber slot) [VNum (of_Z 2)])).
Proof.
  apply (creation_generates_slots Prisma.empty "Lot-A" "Main Street"
           (Finite (1297 # 100)) (Finite (7759 # 100)) 3 [VNum (of_Z 2)] []).
  - exact wf_empty.
  - reflexivity.
  - discriminate.
  - discriminate.
  - simpl. intros H. discriminate H.
  - simpl. intros H. discriminate H.
  - unfold max_array_length. lia.
Defined.

(** ** A facility without slots *)

(** C4 (counterexample).  A creation request with totalSlots = 0 and every
    other field in order is answered with 400 and creates nothing. *)
Lemma zero_total_slots_is_invalid :
  put_update_parking_lot Prisma.empty lot_Z
  = (Message 400 invalid_request_message, Prisma.empty).
Proof. reflexivity. Qed.

(** C4 (amended).  A reconcile request for an unseen name with totalSlots
    equal to zero is rejected as an invalid request and leaves the store as
    it was; and a facility whose slot set is empty has both derived counters,
    availableSlots and filledSlots, at zero. *)
Theorem zero_total_slots_rejected
    (calculateDistanceInKM : value -> value -> number -> number -> number)
    (toFixed : number -> Z -> string) d body d0 details r :
  (Prisma.findFirst d (UpdateBody.name body) = None ->
   UpdateBody.totalSlots body = Some 0 ->
   put_update_parking_lot d body = (Message 400 invalid_request_message, d))
  /\ (post_lot_details calculateDistanceInKM toFixed d0 details = Json 200 r ->
      ResponseData.totalSlots r = 0 ->
      ResponseData.availableSlots r = 0 /\ ResponseData.filledSlots r = 0).
Proof.
  split.
  - intros Hfind Hzero. unfold put_update_parking_lot. rewrite Hfind.
    unfold invalid_request. rewrite Hzero. simpl.
    rewrite !orb_true_r. reflexivity.
  - intros H Hz. apply lot_details_counters in H as (lot & _ & Ht & Hf & Ha).
    pose proof (count_status_total (Prisma.slots d0 lot)) as Htot.
    unfold count_status in *. lia.
Qed.

Lemma zero_total_slots_rejected_witness :
  put_update_parking_lot db_A lot_Z = (Message 400 invalid_request_message, db_A)
  /\ 0 = 0 /\ 0 = 0.
Proof.
  pose proof (zero_total_slots_rejected flat_distance no_digits db_A lot_Z db_N
                details_N
                (ResponseData.mk "Lot-N" (Finite (1297 # 100)) (Finite (7759 # 100))
                   0 0 0 None)) as [H1 H2].
  split.
  - apply H1; reflexivity.
  - apply H2; reflexivity.
Defined.

(** ** Proximity *)

Lemma number_le_within distance :
  number_le distance (of_Z 10) = true <-> within_km 10 distance.
Proof.
  destruct distance as [|[|]|q]; simpl; try (split; congruence).
  - split; [discriminate|contradiction].
  - apply Qle_bool_iff.
Qed.

(** C5.  Whatever the user coordinate and the collection of facilities, the
    filter of the nearby-parking-lots route keeps exactly the facilities whose
    distance from the user is at most 10 km: one at exactly 10 km is kept,
    one strictly above 10 km is dropped; and the route answers with this
    filter of the stored facilities whenever it performs the search. *)
Theorem nearby_within_10_km
    (calculateDistanceInKM : value -> value -> number -> number -> number)
    userLat userLon parkingLots :
  let distance lot :=
    calculateDistanceInKM userLat userLon
      (ParkingLot.latitude lot) (ParkingLot.longitude lot) in
  let nearby := nearbyParkingLots calculateDistanceInKM userLat userLon in
  (forall lot,
     In lot (nearby parkingLots) <->
     In lot parkingLots /\ within_km 10 (distance lot))
  /\ (forall lot q,
        In lot parkingLots -> distance lot = Finite q -> (q == 10)%Q ->
        In lot (nearby parkingLots))
  /\ (forall lot q,
        distance lot = Finite q -> (10 < q)%Q -> ~ In lot (nearby parkingLots))
  /\ (forall d,
        to_boolean userLat = true -> to_boolean userLon = true ->
        post_nearby_parking_lots calculateDistanceInKM d
          (NearbyBody.mk userLat userLon)
        = Json 200 (nearby (Prisma.findMany d))).
Proof.
  intros distance nearby.
  assert (Hiff : forall lot,
             In lot (nearby parkingLots) <->
             In lot parkingLots /\ within_km 10 (distance lot)).
  { intros lot. unfold nearby, nearbyParkingLots. rewrite filter_In.
    now rewrite number_le_within. }
  split; [exact Hiff|]. split; [|split].
  - intros lot q Hin Hd Hq. apply Hiff. split; auto.
    rewrite Hd. simpl. rewrite Hq. apply Qle_refl.
  - intros lot q Hd Hq Hin. apply Hiff in Hin as [_ Hw].
    rewrite Hd in Hw. simpl in Hw. apply (Qlt_not_le _ _ Hq Hw).
  - intros d Hlat Hlon. unfold post_nearby_parking_lots. simpl.
    rewrite Hlat, Hlon. reflexivity.
Qed.

Lemma nearby_within_10_km_witness :
  let far := ParkingLot.mk 2 "Lot-B" "Ring Road" (Finite (1297 # 100))
               (Finite (77701 # 1000)) 4 in
  let near := ParkingLot.mk 1 "Lot-A" "Main Street" (Finite (1297 # 100))
                (Finite (777 # 10)) 3 in
  let userLat := VNum (Finite (1297 # 100)) in
  let userLon := VNum (Finite (776 # 10)) in
  In near (nearbyParkingLots flat_distance userLat userLon [near; far])
  /\ ~ In far (nearbyParkingLots flat_distance userLat userLon [near; far])
  /\ post_nearby_parking_lots flat_distance db_A (NearbyBody.mk userLat userLon)
     = Json 200 (nearbyParkingLots flat_distance userLat userLon
                   (Prisma.findMany db_A)).
Proof.
  intros far near userLat userLon.
  destruct (nearby_within_10_km flat_distance userLat userLon [near; far])
    as (_ & Hat & Habove & Hroute).
  split; [|split].
  - apply (Hat near _ (or_introl eq_refl) eq_refl). reflexivity.
  - apply (Habove far _ eq_refl). reflexivity.
  - apply Hroute; reflexivity.
Defined.

(** The guard of line 43 answers 400 exactly when one of the coordinates is
    falsy: absent, null, false, the number 0, NaN or the empty string. *)
Lemma nearby_guard
    (calculateDistanceInKM : value -> value -> number -> number -> number) d body :
  (exists message,
     post_nearby_parking_lots calculateDistanceInKM d body = Message 400 message)
  <-> to_boolean (NearbyBody.userLat body) = false
      \/ to_boolean (NearbyBody.userLon body) = false.
Proof.
  unfold post_nearby_parking_lots.
  destruct (to_boolean (NearbyBody.userLat body)),
           (to_boolean (NearbyBody.userLon body)); simpl.
  - split; [intros [m H]; discriminate|intros [H|H]; discriminate].
  - split; eauto.
  - split; eauto.
  - split; eauto.
Qed.

(** C6 (evaluation).  A request whose userLat is the number 0, with a
    numeric userLon, is answered with 400 "User location ... is required":
    the location is present, and no search is performed. *)
Theorem equator_is_rejected
    (calculateDistanceInKM : value -> value -> number -> number -> number) d :
  post_nearby_parking_lots calculateDistanceInKM d equator
  = Message 400 "User location (latitude, longitude) is required".
Proof. reflexivity. Qed.

(** ** Reconciling an existing facility *)

Lemma reconcile_filled filledSlots freeSlots slot :
  listed filledSlots (Slot.slotNumber slot) = true ->
  reconcile filledSlots freeSlots slot = Slot.set_status true slot.
Proof. unfold reconcile. now intros ->. Qed.

Lemma reconcile_unlisted filledSlots freeSlots slot :
  listed filledSlots (Slot.slotNumber slot) = false ->
  listed freeSlots (Slot.slotNumber slot) = false ->
  reconcile filledSlots freeSlots slot = slot.
Proof. unfold reconcile. now intros -> ->. Qed.

Lemma not_listed elements k :
  ~ appears k elements -> listed (VArr elements) k = false.
Proof.
  intros H. destruct (listed (VArr elements) k) eqn:E; [|reflexivity].
  exfalso. now apply H, listed_appears.
Qed.

(** C7.  On an update of an existing facility, a slot whose number appears
    in both filledSlots and freeSlots ends up occupied, in the response and
    in the store. *)
Theorem filled_takes_precedence d body parkingLot filled free slot :
  wf d ->
  Prisma.findFirst d (UpdateBody.name body) = Some parkingLot ->
  UpdateBody.filledSlots body = VArr filled ->
  UpdateBody.freeSlots body = VArr free ->
  In slot (Prisma.slots d parkingLot) ->
  appears (Slot.slotNumber slot) filled ->
  appears (Slot.slotNumber slot) free ->
  exists updatedSlots,
    fst (put_update_parking_lot d body)
    = Json 200 ("Parking lot and slot statuses updated successfully.",
                (parkingLot, updatedSlots))
    /\ In (Slot.set_status true slot) updatedSlots
    /\ In (Slot.set_status true slot)
          (Prisma.slots (snd (put_update_parking_lot d body)) parkingLot).
Proof.
  intros Hwf Hfind Hf Hr Hin Hfilled _.
  rewrite (put_update_reconciles d body parkingLot Hfind)
    by (rewrite ?Hf, ?Hr; reflexivity).
  simpl fst. simpl snd.
  rewrite slots_after_reconcile by apply (wf_slot_ids _ Hwf).
  eexists. split; [reflexivity|].
  assert (In (Slot.set_status true slot)
             (map (reconcile (UpdateBody.filledSlots body) (UpdateBody.freeSlots body))
                  (Prisma.slots d parkingLot))); [|now split].
  apply in_map_iff. exists slot. split; auto.
  apply reconcile_filled. rewrite Hf. now apply listed_appears.
Qed.

Lemma filled_takes_precedence_witness :
  exists updatedSlots,
    fst (put_update_parking_lot db_A both_A)
    = Json 200 ("Parking lot and slot statuses updated successfully.",
                (ParkingLot.mk 1 "Lot-A" "Main Street" (Finite (1297 # 100))
                   (Finite (7759 # 100)) 3, updatedSlots))
    /\ In (Slot.mk 3 3 true 1) updatedSlots
    /\ In (Slot.mk 3 3 true 1)
          (Prisma.slots (snd (put_update_parking_lot db_A both_A))
             (ParkingLot.mk 1 "Lot-A" "Main Street" (Finite (1297 # 100))
                (Finite (7759 # 100)) 3)).
Proof.
  apply (filled_takes_precedence db_A both_A
           (ParkingLot.mk 1 "Lot-A" "Main Street" (Finite (1297 # 100))
              (Finite (7759 # 100)) 3)
           [VNum (of_Z 3)] [VNum (of_Z 3); VNum (of_Z 2)]
           (Slot.mk 3 3 false 1)).
  - apply reachable_wf. apply reachable_update. exact reachable_empty.
  - reflexivity.
  - reflexivity.
  - reflexivity.
  - simpl. right. right. left. reflexivity.
  - apply Exists_cons_hd. simpl. reflexivity.
  - apply Exists_cons_hd. simpl. reflexivity.
Defined.

Lemma map_same {A} (h : A -> A) l :
  (forall x, In x l -> h x = x) -> map h l = l.
Proof.
  intros H. rewrite <- (map_id l) at 2. now apply map_ext_in.
Qed.

(** C8.  On an update of an existing facility with two lists: the request
    succeeds whatever numbers the lists hold; no facility and no slot is
    added or removed and no slot changes its number or owner; every slot of
    the facility whose number is in neither list keeps its flag; numbers
    that are not those of an existing slot are ignored, in that two requests
    whose lists agree on the numbers of the existing slots have the same
    outcome; when no existing slot of the facility is named in either list
    (only stray numbers, or nothing at all) the store is left as it was; and
    so it is in particular when both lists are empty. *)
Theorem update_frame d body parkingLot filled free :
  wf d ->
  Prisma.findFirst d (UpdateBody.name body) = Some parkingLot ->
  UpdateBody.filledSlots body = VArr filled ->
  UpdateBody.freeSlots body = VArr free ->
  let d' := snd (put_update_parking_lot d body) in
  let key s := (Slot.id s, Slot.slotNumber s, Slot.parkingLotId s) in
  (exists updatedSlots,
     fst (put_update_parking_lot d body)
     = Json 200 ("Parking lot and slot statuses updated successfully.",
                 (parkingLot, updatedSlots))
     /\ Prisma.slots d' parkingLot = updatedSlots)
  /\ Prisma.parkingLot d' = Prisma.parkingLot d
  /\ map key (Prisma.slot d') = map key (Prisma.slot d)
  /\ (forall slot,
        In slot (Prisma.slots d parkingLot) ->
        ~ appears (Slot.slotNumber slot) filled ->
        ~ appears (Slot.slotNumber slot) free ->
        In slot (Prisma.slots d' parkingLot))
  /\ (forall body' filled' free',
        UpdateBody.name body' = UpdateBody.name body ->
        UpdateBody.filledSlots body' = VArr filled' ->
        UpdateBody.freeSlots body' = VArr free' ->
        (forall slot,
           In slot (Prisma.slots d parkingLot) ->
           (appears (Slot.slotNumber slot) filled
            <-> appears (Slot.slotNumber slot) filled')
           /\ (appears (Slot.slotNumber slot) free
               <-> appears (Slot.slotNumber slot) free')) ->
        put_update_parking_lot d body' = put_update_parking_lot d body)
  /\ ((forall slot,
         In slot (Prisma.slots d parkingLot) ->
         ~ appears (Slot.slotNumber slot) filled
         /\ ~ appears (Slot.slotNumber slot) free) ->
      d' = d)
  /\ (filled = [] -> free = [] -> d' = d).
Proof.
  intros Hwf Hfind Hf Hr d' key. subst d'.
  assert (Hext : forall body' filled' free',
             UpdateBody.name body' = UpdateBody.name body ->
             UpdateBody.filledSlots body' = VArr filled' ->
             UpdateBody.freeSlots body' = VArr free' ->
             (forall slot,
                In slot (Prisma.slots d parkingLot) ->
                (appears (Slot.slotNumber slot) filled
                 <-> appears (Slot.slotNumber slot) filled')
                /\ (appears (Slot.slotNumber slot) free
                    <-> appears (Slot.slotNumber slot) free')) ->
             put_update_parking_lot d body' = put_update_parking_lot d body).
  { intros body' filled' free' Hname Hf' Hr' Hagree.
    rewrite <- Hname in Hfind.
    rewrite (put_update_reconciles d body' parkingLot Hfind)
      by (rewrite ?Hf', ?Hr'; reflexivity).
    rewrite Hname in Hfind.
    rewrite (put_update_reconciles d body parkingLot Hfind)
      by (rewrite ?Hf, ?Hr; reflexivity).
    rewrite Hf, Hr, Hf', Hr'.
    assert (Hmap : map (reconcile (VArr filled') (VArr free'))
                     (Prisma.slots d parkingLot)
                   = map (reconcile (VArr filled) (VArr free))
                       (Prisma.slots d parkingLot)).
    { apply map_ext_in. intros slot Hin.
      destruct (Hagree slot Hin) as [H1 H2]. unfold reconcile.
      rewrite <- !listed_appears in H1, H2.
      destruct (listed (VArr filled) _), (listed (VArr filled') _);
        try reflexivity;
        try (destruct H1 as [H1 H1']; try (now discriminate (H1 eq_refl));
             now discriminate (H1' eq_refl)).
      destruct (listed (VArr free) _), (listed (VArr free') _);
        try reflexivity;
        destruct H2 as [H2 H2']; try (now discriminate (H2 eq_refl));
        now discriminate (H2' eq_refl). }
    now rewrite Hmap. }
  rewrite (put_update_reconciles d body parkingLot Hfind)
    by (rewrite ?Hf, ?Hr; reflexivity).
  simpl fst. simpl snd. rewrite Hf, Hr.
  pose proof (wf_slot_ids _ Hwf) as Hnd.
  assert (Hnoop : (forall slot,
                     In slot (Prisma.slots d parkingLot) ->
                     ~ appears (Slot.slotNumber slot) filled
                     /\ ~ appears (Slot.slotNumber slot) free) ->
                  Prisma.update d (ParkingLot.id parkingLot)
                    (map (fun slot => (Slot.id slot, Slot.status slot))
                       (map (reconcile (VArr filled) (VArr free))
                          (Prisma.slots d parkingLot))) = d).
  { intros Hnone.
    pose proof (slot_after_reconcile d parkingLot (VArr filled) (VArr free) Hnd)
      as Hslot.
    assert (Hsame : map (fun s => if (Slot.parkingLotId s
                                      =? ParkingLot.id parkingLot)%nat
                                  then reconcile (VArr filled) (VArr free) s
                                  else s) (Prisma.slot d)
                    = Prisma.slot d).
    { apply map_same. intros s Hs.
      destruct (Slot.parkingLotId s =? ParkingLot.id parkingLot)%nat eqn:E;
        [|reflexivity].
      destruct (Hnone s) as [H1 H2].
      { apply filter_In. now split. }
      apply reconcile_unlisted; now apply not_listed. }
    rewrite Hsame in Hslot. clear Hsame.
    destruct d as [lots rows n1 n2]. unfold Prisma.update in *.
    cbn [Prisma.slot Prisma.parkingLot Prisma.nextParkingLotId Prisma.nextSlotId]
      in *.
    now rewrite Hslot. }
  split; [|split; [|split; [|split; [|split; [|split]]]]].
  - eexists. split; [reflexivity|]. now apply slots_after_reconcile.
  - reflexivity.
  - rewrite slot_after_reconcile by assumption. rewrite map_map.
    apply map_ext. intros s. unfold key.
    destruct (Slot.parkingLotId s =? ParkingLot.id parkingLot)%nat;
      [|reflexivity].
    now rewrite reconcile_id, reconcile_number, reconcile_owner.
  - intros slot Hin Hnf Hnr. rewrite slots_after_reconcile by assumption.
    apply in_map_iff. exists slot. split; auto.
    apply reconcile_unlisted; now apply not_listed.
  - intros body' filled' free' Hname Hf' Hr' Hagree.
    rewrite (Hext body' filled' free' Hname Hf' Hr' Hagree).
    rewrite (put_update_reconciles d body parkingLot Hfind)
      by (rewrite ?Hf, ?Hr; reflexivity).
    now rewrite Hf, Hr.
  - exact Hnoop.
  - intros -> ->. apply Hnoop. intros slot _.
    split; intros H; inversion H.
Qed.

Lemma update_frame_witness :
  let d' := snd (put_update_parking_lot db_A stray_A) in
  let key s := (Slot.id s, Slot.slotNumber s, Slot.parkingLotId s) in
  let parkingLot := ParkingLot.mk 1 "Lot-A" "Main Street" (Finite (1297 # 100))
                      (Finite (7759 # 100)) 3 in
  (exists updatedSlots,
     fst (put_update_parking_lot db_A stray_A)
     = Json 200 ("Parking lot and slot statuses updated successfully.",
                 (parkingLot, updatedSlots))
     /\ Prisma.slots d' parkingLot = updatedSlots)
  /\ Prisma.parkingLot d' = Prisma.parkingLot db_A
  /\ map key (Prisma.slot d') = map key (Prisma.slot db_A)
  /\ In (Slot.mk 2 2 true 1) (Prisma.slots d' parkingLot)
  /\ put_update_parking_lot db_A none_A = put_update_parking_lot db_A stray_A
  /\ d' = db_A.
Proof.
  intros d' key parkingLot.
  destruct (update_frame db_A stray_A parkingLot
              [VNum (of_Z 99)] [VNum (of_Z 0); VNum (of_Z (-4))])
    as (H1 & H2 & H3 & H4 & H5 & H6 & _).
  - apply reachable_wf. apply reachable_update. exact reachable_empty.
  - reflexivity.
  - reflexivity.
  - reflexivity.
  - assert (Hstray : forall slot,
               In slot (Prisma.slots db_A parkingLot) ->
               ~ appears (Slot.slotNumber slot) [VNum (of_Z 99)]
               /\ ~ appears (Slot.slotNumber slot) [VNum (of_Z 0); VNum (of_Z (-4))]).
    { intros slot Hin. rewrite <- !listed_appears.
      simpl in Hin. destruct Hin as [<-|[<-|[<-|[]]]]; split; discriminate. }
    split; [exact H1|]. split; [exact H2|]. split; [exact H3|].
    split; [|split].
    + apply H4.
      * simpl. right. left. reflexivity.
      * apply (Hstray (Slot.mk 2 2 true 1)). simpl. right. left. reflexivity.
      * apply (Hstray (Slot.mk 2 2 true 1)). simpl. right. left. reflexivity.
    + apply (H5 none_A [] []); try reflexivity.
      intros slot Hin. destruct (Hstray slot Hin) as [Hf Hr].
      split; split; intros H; try contradiction; inversion H.
    + apply H6. exact Hstray.
Defined.

(** ** Deletion *)

Lemma NoDup_map_inj {A B} (f : A -> B) l a b :
  NoDup (map f l) -> In a l -> In b l -> f a = f b -> a = b.
Proof.
  induction l as [|x l IH]; simpl; intros Hnd Ha Hb Hf; [contradiction|].
  inversion Hnd as [|y ys Hnotin Hnd']; subst.
  destruct Ha as [->|Ha], Hb as [->|Hb]; auto.
  - exfalso. apply Hnotin. rewrite Hf. now apply in_map.
  - exfalso. apply Hnotin. rewrite <- Hf. now apply in_map.
Qed.

Lemma deleted_is_not_found d name parkingLot :
  wf d ->
  Prisma.findFirst d (Some name) = Some parkingLot ->
  Prisma.findFirst (Prisma.delete d (ParkingLot.id parkingLot)) (Some name) = None.
Proof.
  intros Hwf Hfind. apply findFirst_some in Hfind as [Hin Hname].
  apply findFirst_none. simpl. intros H.
  apply in_map_iff in H as [lot [Hn Hlot]].
  apply filter_In in Hlot as [Hlot Hid].
  assert (lot = parkingLot).
  { apply (NoDup_map_inj ParkingLot.name (Prisma.parkingLot d)); auto.
    - apply (wf_names _ Hwf).
    - congruence. }
  subst lot. rewrite Nat.eqb_refl in Hid. discriminate.
Qed.

(** C9.  Deleting by name a facility that the store has answers with
    success and removes the facility and every slot of it: the name is no
    longer found, so that a lot-details lookup and a second deletion by that
    name both answer 404.  Deleting a name that the store does not have
    answers 404 and changes nothing. *)
Theorem delete_removes_facility
    (calculateDistanceInKM : value -> value -> number -> number -> number)
    (toFixed : number -> Z -> string) d name :
  wf d ->
  let d' := snd (delete_parking_lot d name) in
  (forall parkingLot,
     Prisma.findFirst d (Some name) = Some parkingLot ->
     fst (delete_parking_lot d name)
     = Message 200 ("Parking lot '" ++ name ++ "' deleted successfully")
     /\ ~ In parkingLot (Prisma.parkingLot d')
     /\ (forall slot, In slot (Prisma.slots d parkingLot) -> ~ In slot (Prisma.slot d'))
     /\ Prisma.slots d' parkingLot = []
     /\ Prisma.findFirst d' (Some name) = None
     /\ (forall userLat userLon,
           post_lot_details calculateDistanceInKM toFixed d'
             (LotDetailsBody.mk (Some name) userLat userLon)
           = Message 404 "Parking lot not found")
     /\ delete_parking_lot d' name
        = (Message 404 ("Parking lot '" ++ name ++ "' not found"), d'))
  /\ (Prisma.findFirst d (Some name) = None ->
      delete_parking_lot d name
      = (Message 404 ("Parking lot '" ++ name ++ "' not found"), d)).
Proof.
  intros Hwf d'. split.
  - intros parkingLot Hfind. subst d'.
    assert (Hdel : delete_parking_lot d name
                   = (Message 200 ("Parking lot '" ++ name ++ "' deleted successfully"),
                      Prisma.delete d (ParkingLot.id parkingLot))).
    { unfold delete_parking_lot. now rewrite Hfind. }
    rewrite Hdel. simpl fst. simpl snd.
    pose proof (deleted_is_not_found d name parkingLot Hwf Hfind) as Hgone.
    assert (Hslots : forall slot,
               In slot (Prisma.slot (Prisma.delete d (ParkingLot.id parkingLot))) ->
               Slot.parkingLotId slot <> ParkingLot.id parkingLot).
    { simpl. intros slot Hs. apply filter_In in Hs as [_ Hs].
      apply Nat.eqb_neq. now destruct (_ =? _)%nat. }
    split; [reflexivity|]. split; [|split; [|split; [|split; [|split]]]].
    + simpl. intros Hin. apply filter_In in Hin as [_ Hid].
      rewrite Nat.eqb_refl in Hid. discriminate.
    + intros slot Hin Hin'. apply filter_In in Hin as [_ Hown].
      apply Nat.eqb_eq in Hown. now apply (Hslots slot).
    + apply filter_none. intros slot Hin. apply Nat.eqb_neq. now apply Hslots.
    + exact Hgone.
    + intros userLat userLon. unfold post_lot_details.
      cbn [LotDetailsBody.parkingLotName]. now rewrite Hgone.
    + unfold delete_parking_lot. now rewrite Hgone.
  - intros Hfind. unfold delete_parking_lot. now rewrite Hfind.
Qed.

Lemma delete_removes_facility_witness :
  (fst (delete_parking_lot db_A "Lot-A")
   = Message 200 "Parking lot 'Lot-A' deleted successfully"
   /\ Prisma.findFirst (snd (delete_parking_lot db_A "Lot-A")) (Some "Lot-A") = None
   /\ delete_parking_lot (snd (delete_parking_lot db_A "Lot-A")) "Lot-A"
      = (Message 404 "Parking lot 'Lot-A' not found",
         snd (delete_parking_lot db_A "Lot-A")))
  /\ delete_parking_lot db_A "Lot-B"
     = (Message 404 "Parking lot 'Lot-B' not found", db_A).
Proof.
  assert (Hwf : wf db_A).
  { apply reachable_wf. apply reachable_update. exact reachable_empty. }
  split.
  - destruct (delete_removes_facility flat_distance no_digits db_A "Lot-A" Hwf)
      as [H _].
    destruct (H (ParkingLot.mk 1 "Lot-A" "Main Street" (Finite (1297 # 100))
                   (Finite (7759 # 100)) 3) eq_refl)
      as (H1 & _ & _ & _ & H5 & _ & H7).
    repeat split; assumption.
  - destruct (delete_removes_facility flat_distance no_digits db_A "Lot-B" Hwf)
      as [_ H].
    apply H. reflexivity.
Defined.

(** ** Failures on the update path *)

Lemma mapM_throws {A B} (f : A -> completion B) l :
  (forall a e, f a = Throw e -> e = TypeError) ->
  forall e,
    mapM f l = Throw e <-> e = TypeError /\ exists a, In a l /\ f a = Throw TypeError.
Proof.
  intros Hkind e. induction l as [|x l IH]; simpl.
  - split; [discriminate|]. intros [_ [a [[] _]]].
  - destruct (f x) as [b|e'] eqn:Hx; simpl.
    + destruct (mapM f l) as [bs|e''] eqn:Hl; simpl.
      * split; [discriminate|]. intros [He [a [[<-|Ha] Hf]]]; [congruence|].
        assert (Hex : e = TypeError /\ exists a, In a l /\ f a = Throw TypeError)
          by eauto.
        apply IH in Hex. discriminate.
      * split.
        -- intros H. apply IH in H as [He [a [Ha Hf]]]. eauto.
        -- intros [He [a [[<-|Ha] Hf]]]; [congruence|].
           apply IH. eauto.
    + pose proof (Hkind x e' Hx) as ->. split.
      * intros [= <-]. split; [reflexivity|]. exists x. auto.
      * intros [-> _]. reflexivity.
Qed.

Lemma update_slot_throws_TypeError filledSlots freeSlots slot e :
  update_slot filledSlots freeSlots slot = Throw e -> e = TypeError.
Proof.
  intros H.
  destruct (update_slot_outcome filledSlots freeSlots slot) as [E|[b E]];
    congruence.
Qed.

(** C10 (counterexample).  "Lot-A" exists with slots 1, 2 and 3; an update
    that lists all three in filledSlots and has no freeSlots field at all is
    answered with 200, not with the internal failure: the membership test on
    the missing field is never reached. *)
Lemma missing_freeSlots_succeeds :
  UpdateBody.freeSlots fill_all_A = VUndefined
  /\ fst (put_update_parking_lot db_A fill_all_A)
     = Json 200 ("Parking lot and slot statuses updated successfully.",
                 (ParkingLot.mk 1 "Lot-A" "Main Street" (Finite (1297 # 100))
                    (Finite (7759 # 100)) 3,
                  [Slot.mk 1 1 true 1; Slot.mk 2 2 true 1; Slot.mk 3 3 true 1])).
Proof. split; reflexivity. Qed.

(** C10 (amended).  When the reconcile operation targets a facility that
    already exists, no input validation is performed: whatever the body
    holds, the request is not rejected as an invalid request (the
    required-fields check is on the creation path only).  It fails with the
    generic internal failure, leaving the store as it was, exactly when a
    membership test is evaluated on a value that has no [includes] method:
    the facility has a slot and filledSlots is neither an array nor a string,
    or freeSlots is neither an array nor a string and some slot of the
    facility is not matched by filledSlots.  In every other case the update
    succeeds. *)
Theorem update_path_failure d body parkingLot :
  Prisma.findFirst d (UpdateBody.name body) = Some parkingLot ->
  let filledSlots := UpdateBody.filledSlots body in
  let freeSlots := UpdateBody.freeSlots body in
  let slots := Prisma.slots d parkingLot in
  let fails :=
    (slots <> [] /\ has_includes filledSlots = false)
    \/ (has_includes freeSlots = false
        /\ exists slot,
             In slot slots
             /\ includes filledSlots (Slot.slotNumber slot) = Return false) in
  (forall message, fst (put_update_parking_lot d body) <> Message 400 message)
  /\ (fails -> put_update_parking_lot d body = (internal_server_error, d))
  /\ (~ fails ->
      exists updatedSlots,
        fst (put_update_parking_lot d body)
        = Json 200 ("Parking lot and slot statuses updated successfully.",
                    (parkingLot, updatedSlots))).
Proof.
  intros Hfind filledSlots freeSlots slots fails.
  rewrite (put_update_existing _ _ _ Hfind).
  fold filledSlots freeSlots slots.
  assert (Hthrow : mapM (update_slot filledSlots freeSlots) slots = Throw TypeError
                   <-> fails).
  { rewrite mapM_throws by apply update_slot_throws_TypeError.
    unfold fails. split.
    - intros [_ [slot [Hin Hslot]]].
      apply update_slot_throws in Hslot as [H|[H1 H2]].
      + left. split; auto. intros E. rewrite E in Hin. contradiction.
      + right. split; eauto.
    - intros [[Hne Hf]|[Hr [slot [Hin Hslot]]]]; (split; [reflexivity|]).
      + destruct slots as [|slot rest]; [contradiction|].
        exists slot. split; [now left|]. apply update_slot_throws. now left.
      + exists slot. split; auto. apply update_slot_throws. now right. }
  destruct (mapM (update_slot filledSlots freeSlots) slots) as [updated|e] eqn:E.
  - split; [discriminate|]. split.
    + intros Hfails. apply Hthrow in Hfails. discriminate.
    + intros _. eexists. reflexivity.
  - assert (e = TypeError) as ->.
    { apply (proj1 (mapM_throws _ slots
                      (update_slot_throws_TypeError filledSlots freeSlots) e))
        in E.
      tauto. }
    split; [discriminate|]. split.
    + reflexivity.
    + intros Hnot. exfalso. apply Hnot, Hthrow. reflexivity.
Qed.

Lemma update_path_failure_witness :
  (forall message,
     fst (put_update_parking_lot db_A
            (UpdateBody.mk (Some "Lot-A") None None None None VNull (slot_numbers [])))
     <> Message 400 message)
  /\ put_update_parking_lot db_A
       (UpdateBody.mk (Some "Lot-A") None None None None VNull (slot_numbers []))
     = (internal_server_error, db_A)
  /\ exists updatedSlots,
       fst (put_update_parking_lot db_A fill_all_A)
       = Json 200 ("Parking lot and slot statuses updated successfully.",
                   (ParkingLot.mk 1 "Lot-A" "Main Street" (Finite (1297 # 100))
                      (Finite (7759 # 100)) 3, updatedSlots)).
Proof.
  destruct (update_path_failure db_A
              (UpdateBody.mk (Some "Lot-A") None None None None VNull
                 (slot_numbers []))
              (ParkingLot.mk 1 "Lot-A" "Main Street" (Finite (1297 # 100))
                 (Finite (7759 # 100)) 3) eq_refl) as (H1 & H2 & _).
  destruct (update_path_failure db_A fill_all_A
              (ParkingLot.mk 1 "Lot-A" "Main Street" (Finite (1297 # 100))
                 (Finite (7759 # 100)) 3) eq_refl) as (_ & _ & H3).
  split; [exact H1|]. split.
  - apply H2. left. split; [discriminate|reflexivity].
  - apply H3. intros [[_ H]|[_ [slot [Hin H]]]].
    + discriminate.
    + simpl in Hin. destruct Hin as [<-|[<-|[<-|[]]]]; discriminate.
Defined.

(** ** Further lemmas on the store *)

Lemma entries_owner lot entries s :
  Slot.parkingLotId (fold_left (fun s entry => Prisma.update_one lot entry s) entries s)
  = Slot.parkingLotId s.
Proof.
  revert s. induction entries as [|e entries IH]; simpl; intros s; [reflexivity|].
  now rewrite IH, update_one_owner.
Qed.

Lemma entries_number lot entries s :
  Slot.slotNumber (fold_left (fun s entry => Prisma.update_one lot entry s) entries s)
  = Slot.slotNumber s.
Proof.
  revert s. induction entries as [|e entries IH]; simpl; intros s; [reflexivity|].
  now rewrite IH, update_one_number.
Qed.

(** The slots of any facility after a batch, read off the slots before. *)
Lemma slots_after_update d lot_id entries lot :
  Prisma.slots (Prisma.update d lot_id entries) lot
  = map (fun s => fold_left (fun s entry => Prisma.update_one lot_id entry s) entries s)
        (Prisma.slots d lot).
Proof.
  unfold Prisma.slots, Prisma.update. simpl. rewrite fold_update_rows.
  apply filter_map_commute. intros s. now rewrite entries_owner.
Qed.

Lemma slots_after_update_other d lot_id entries lot :
  ParkingLot.id lot <> lot_id ->
  Prisma.slots (Prisma.update d lot_id entries) lot = Prisma.slots d lot.
Proof.
  intros Hne. rewrite slots_after_update. apply map_same. intros s Hs.
  apply filter_In in Hs as [_ Hs]. apply Nat.eqb_eq in Hs.
  apply entries_miss. intros e _. right. congruence.
Qed.

Lemma numbers_after_update d lot_id entries lot :
  map Slot.slotNumber (Prisma.slots (Prisma.update d lot_id entries) lot)
  = map Slot.slotNumber (Prisma.slots d lot).
Proof.
  rewrite slots_after_update, map_map. apply map_ext. intros s.
  apply entries_number.
Qed.

Lemma slots_after_delete d lot_id lot :
  ParkingLot.id lot <> lot_id ->
  Prisma.slots (Prisma.delete d lot_id) lot = Prisma.slots d lot.
Proof.
  intros Hne. unfold Prisma.slots, Prisma.delete. simpl.
  induction (Prisma.slot d) as [|s rows IH]; simpl; [reflexivity|].
  destruct (Slot.parkingLotId s =? lot_id)%nat eqn:E1; simpl.
  - apply Nat.eqb_eq in E1.
    destruct (Slot.parkingLotId s =? ParkingLot.id lot)%nat eqn:E2; auto.
    apply Nat.eqb_eq in E2. congruence.
  - destruct (Slot.parkingLotId s =? ParkingLot.id lot)%nat; now rewrite IH.
Qed.

Lemma slots_after_create d name location latitude longitude totalSlots create_slots lot :
  wf d -> In lot (Prisma.parkingLot d) ->
  Prisma.slots
    (fst (Prisma.create d name location latitude longitude totalSlots create_slots))
    lot
  = Prisma.slots d lot.
Proof.
  intros Hwf Hin. unfold Prisma.slots. simpl.
  rewrite filter_app, (filter_none _ (Prisma.insert_slots _ _ _)).
  - apply app_nil_r.
  - intros s Hs. apply insert_slots_owner in Hs. rewrite Hs.
    apply Nat.eqb_neq.
    pose proof (proj1 (Forall_forall _ _) (wf_lot_fresh _ Hwf) lot Hin) as Hlt.
    simpl in Hlt. lia.
Qed.

Lemma find_unique {A} (f : A -> string) l a :
  NoDup (map f l) -> In a l ->
  find (fun x => (f x =? f a)%string) l = Some a.
Proof.
  induction l as [|x l IH]; simpl; intros Hnd Hin; [contradiction|].
  inversion Hnd as [|y ys Hnotin Hnd']; subst.
  destruct Hin as [->|Hin].
  - now rewrite String.eqb_refl.
  - destruct (f x =? f a)%string eqn:E; [|auto].
    apply String.eqb_eq in E. exfalso. apply Hnotin. rewrite E. now apply in_map.
Qed.

Lemma findFirst_unique d lot :
  wf d -> In lot (Prisma.parkingLot d) ->
  Prisma.findFirst d (Some (ParkingLot.name lot)) = Some lot.
Proof.
  intros Hwf Hin. simpl. apply find_unique; auto. apply (wf_names _ Hwf).
Qed.

(** A batch that writes to each slot the flag it has changes nothing. *)
Lemma update_noop d lot filledSlots freeSlots :
  NoDup (map Slot.id (Prisma.slot d)) ->
  (forall s, In s (Prisma.slots d lot) -> reconcile filledSlots freeSlots s = s) ->
  Prisma.update d (ParkingLot.id lot)
    (map (fun s => (Slot.id s, Slot.status s))
         (map (reconcile filledSlots freeSlots) (Prisma.slots d lot)))
  = d.
Proof.
  intros Hnd Hsame.
  pose proof (slot_after_reconcile d lot filledSlots freeSlots Hnd) as Hslot.
  assert (Hrows : map (fun s => if (Slot.parkingLotId s =? ParkingLot.id lot)%nat
                                then reconcile filledSlots freeSlots s else s)
                      (Prisma.slot d)
                  = Prisma.slot d).
  { apply map_same. intros s Hs.
    destruct (Slot.parkingLotId s =? ParkingLot.id lot)%nat eqn:E; [|reflexivity].
    apply Hsame. apply filter_In. now split. }
  rewrite Hrows in Hslot. clear Hrows.
  destruct d as [lots rows n1 n2]. unfold Prisma.update in *.
  cbn [Prisma.slot Prisma.parkingLot Prisma.nextParkingLotId Prisma.nextSlotId] in *.
  now rewrite Hslot.
Qed.

Lemma update_slot_returns filledSlots freeSlots s x :
  update_slot filledSlots freeSlots s = Return x ->
  x = reconcile filledSlots freeSlots s.
Proof.
  unfold update_slot, reconcile, listed.
  destruct (includes filledSlots (Slot.slotNumber s)) as [[|]|e]; simpl;
    try discriminate.
  - now intros [= <-].
  - destruct (includes freeSlots (Slot.slotNumber s)) as [[|]|e]; simpl;
      try discriminate; now intros [= <-].
Qed.

Lemma update_slot_by_number filledSlots freeSlots s a :
  Slot.slotNumber a = Slot.slotNumber s ->
  update_slot filledSlots freeSlots s = Return (reconcile filledSlots freeSlots s) ->
  update_slot filledSlots freeSlots a = Return (reconcile filledSlots freeSlots a).
Proof.
  unfold update_slot, reconcile, listed. intros ->.
  destruct (includes filledSlots (Slot.slotNumber s)) as [[|]|e]; simpl;
    try discriminate; auto.
  destruct (includes freeSlots (Slot.slotNumber s)) as [[|]|e]; simpl;
    try discriminate; auto.
Qed.

Lemma mapM_returns {A B} (f : A -> completion B) (g : A -> B) l bs :
  (forall a b, f a = Return b -> b = g a) ->
  mapM f l = Return bs ->
  bs = map g l /\ forall a, In a l -> f a = Return (g a).
Proof.
  intros Hg. revert bs. induction l as [|x l IH]; simpl; intros bs H.
  - injection H as <-. split; [reflexivity|]. intros a [].
  - destruct (f x) as [b|e] eqn:Hx; simpl in H; [|discriminate].
    destruct (mapM f l) as [bs'|e]; simpl in H; [|discriminate].
    injection H as <-. destruct (IH bs' eq_refl) as [-> Hall].
    pose proof (Hg x b Hx) as Hb. subst b. split; [reflexivity|].
    intros a [<-|Ha]; auto.
Qed.

Lemma reconcile_idempotent filledSlots freeSlots s :
  reconcile filledSlots freeSlots (reconcile filledSlots freeSlots s)
  = reconcile filledSlots freeSlots s.
Proof.
  unfold reconcile.
  destruct (listed filledSlots (Slot.slotNumber s)) eqn:Ef; simpl.
  - now rewrite Ef.
  - destruct (listed freeSlots (Slot.slotNumber s)) eqn:Er; simpl.
    + now rewrite Ef, Er.
    + now rewrite Ef, Er.
Qed.

(** The outcome of the update path, whatever the two slot-number fields
    hold: either the callback throws and nothing is written, or every slot of
    the facility is reconciled. *)
Lemma put_update_outcome d body parkingLot :
  Prisma.findFirst d (UpdateBody.name body) = Some parkingLot ->
  put_update_parking_lot d body = (internal_server_error, d)
  \/ (put_update_parking_lot d body
      = (Json 200 ("Parking lot and slot statuses updated successfully.",
                   (parkingLot,
                    map (reconcile (UpdateBody.filledSlots body)
                           (UpdateBody.freeSlots body))
                        (Prisma.slots d parkingLot))),
         Prisma.update d (ParkingLot.id parkingLot)
           (map (fun slot => (Slot.id slot, Slot.status slot))
                (map (reconcile (UpdateBody.filledSlots body)
                        (UpdateBody.freeSlots body))
                     (Prisma.slots d parkingLot))))
      /\ forall s, In s (Prisma.slots d parkingLot) ->
           update_slot (UpdateBody.filledSlots body) (UpdateBody.freeSlots body) s
           = Return (reconcile (UpdateBody.filledSlots body)
                       (UpdateBody.freeSlots body) s)).
Proof.
  intros Hfind. rewrite (put_update_existing _ _ _ Hfind).
  destruct (mapM _ _) as [updated|e] eqn:E; [right|now left].
  apply (mapM_returns _ (reconcile (UpdateBody.filledSlots body)
                           (UpdateBody.freeSlots body))) in E as [-> Hall].
  - split; [reflexivity|exact Hall].
  - intros a b. apply update_slot_returns.
Qed.

Lemma NoDup_map_injective {A B} (f : A -> B) l :
  (forall x y, In x l -> In y l -> f x = f y -> x = y) ->
  NoDup l -> NoDup (map f l).
Proof.
  induction l as [|a l IH]; simpl; intros Hinj Hnd; [constructor|].
  inversion Hnd as [|x xs Hnotin Hnd']; subst. constructor.
  - intros Hin. apply in_map_iff in Hin as [y [Hy Hin]].
    apply Hnotin. rewrite <- (Hinj y a); auto.
  - apply IH; auto.
Qed.

Lemma one_to_NoDup n : NoDup (one_to n).
Proof.
  unfold one_to. apply NoDup_map_injective.
  - intros x y _ _ H. lia.
  - apply seq_NoDup.
Qed.

Lemma create_lots d name location latitude longitude totalSlots create_slots :
  Prisma.parkingLot
    (fst (Prisma.create d name location latitude longitude totalSlots create_slots))
  = (Prisma.parkingLot d
     ++ [fst (snd (Prisma.create d name location latitude longitude totalSlots
                     create_slots))])%list.
Proof. reflexivity. Qed.

Lemma findFirst_same_lots d d' name :
  Prisma.parkingLot d' = Prisma.parkingLot d ->
  Prisma.findFirst d' name = Prisma.findFirst d name.
Proof. intros H. unfold Prisma.findFirst. now rewrite H. Qed.

(** The slot numbers of every stored facility are 1 .. totalSlots. *)
Lemma reachable_numbered d :
  reachable d ->
  forall lot, In lot (Prisma.parkingLot d) ->
  map Slot.slotNumber (Prisma.slots d lot) = one_to (ParkingLot.totalSlots lot).
Proof.
  induction 1 as [|d body Hreach IH|d name Hreach IH]; intros lot Hin.
  - contradiction.
  - pose proof (reachable_wf _ Hreach) as Hwf.
    destruct (Prisma.findFirst d (UpdateBody.name body)) as [lot0|] eqn:Hfind.
    + destruct (put_update_outcome d body lot0 Hfind) as [E|[E _]];
        rewrite E in *; cbn [snd] in *; auto.
      rewrite numbers_after_update. now apply IH.
    + destruct (invalid_request body) eqn:Hvalid.
      * unfold put_update_parking_lot in *. rewrite Hfind, Hvalid in *.
        now apply IH.
      * destruct (valid_request _ Hvalid)
          as (n & l & la & lo & t & f & r & -> & Hn & Ht).
        cbn [UpdateBody.name] in Hfind.
        destruct (Z_le_gt_dec t max_array_length) as [Hlen|Hlen];
          [|rewrite (put_update_too_long d n l la lo t f r Hfind Hvalid) in *
              by lia; now apply IH].
        rewrite (put_update_creates d n l la lo t f r Hfind Hvalid Hlen) in *.
        cbn [snd] in *. rewrite create_lots in Hin.
        apply in_app_or in Hin as [Hin|[<-|[]]].
        -- rewrite slots_after_create by assumption. now apply IH.
        -- rewrite created_slots by assumption.
           cbn [Prisma.create snd fst ParkingLot.totalSlots].
           rewrite insert_slots_numbers, map_map. apply map_id.
  - unfold delete_parking_lot in *.
    destruct (Prisma.findFirst d (Some name)) as [lot0|]; cbn [snd] in *; auto.
    cbn [Prisma.delete Prisma.parkingLot] in Hin.
    apply filter_In in Hin as [Hin Hid].
    rewrite slots_after_delete.
    + now apply IH.
    + intros E. rewrite E, Nat.eqb_refl in Hid. discriminate.
Qed.

(** ** Properties of the routes beyond the claims *)

(** X1.  The routes never store two facilities under one name: in every
    store that the reconcile and delete routes can produce from the empty
    one the facility names are pairwise distinct, so that the name of a
    stored facility finds this facility and no other. *)
Theorem reachable_names_unique d :
  reachable d ->
  NoDup (map ParkingLot.name (Prisma.parkingLot d))
  /\ (forall lot, In lot (Prisma.parkingLot d) ->
        Prisma.findFirst d (Some (ParkingLot.name lot)) = Some lot).
Proof.
  intros H. apply reachable_wf in H. split.
  - apply (wf_names _ H).
  - intros lot Hin. now apply findFirst_unique.
Qed.

Lemma reachable_names_unique_witness :
  NoDup (map ParkingLot.name (Prisma.parkingLot db_AB))
  /\ (forall lot, In lot (Prisma.parkingLot db_AB) ->
        Prisma.findFirst db_AB (Some (ParkingLot.name lot)) = Some lot).
Proof.
  apply (reachable_names_unique db_AB).
  apply reachable_update. apply reachable_update. exact reachable_empty.
Defined.

(** X2.  In every store that the routes can produce, the slots of each
    stored facility are numbered 1, 2, .., totalSlots in this order, without
    gap or duplicate: updates and deletions of other facilities keep the
    numbering that the creation set up. *)
Theorem reachable_slot_numbers d lot :
  reachable d -> In lot (Prisma.parkingLot d) ->
  map Slot.slotNumber (Prisma.slots d lot) = one_to (ParkingLot.totalSlots lot)
  /\ NoDup (map Slot.slotNumber (Prisma.slots d lot))
  /\ (forall k, 1 <= k <= ParkingLot.totalSlots lot <->
                exists s, In s (Prisma.slots d lot) /\ Slot.slotNumber s = k).
Proof.
  intros Hreach Hin. pose proof (reachable_numbered d Hreach lot Hin) as Hnum.
  split; [exact Hnum|]. split.
  - rewrite Hnum. apply one_to_NoDup.
  - intros k. rewrite <- one_to_spec, <- Hnum, in_map_iff.
    split; intros [s [H1 H2]]; exists s; auto.
Qed.

Lemma reachable_slot_numbers_witness :
  map Slot.slotNumber
    (Prisma.slots (snd (put_update_parking_lot db_AB swap_A)) facility_A)
  = [1; 2; 3]
  /\ NoDup (map Slot.slotNumber
              (Prisma.slots (snd (put_update_parking_lot db_AB swap_A)) facility_A))
  /\ (forall k, 1 <= k <= 3 <->
                exists s,
                  In s (Prisma.slots (snd (put_update_parking_lot db_AB swap_A))
                          facility_A)
                  /\ Slot.slotNumber s = k).
Proof.
  apply (reachable_slot_numbers (snd (put_update_parking_lot db_AB swap_A))
           facility_A).
  - do 3 apply reachable_update. exact reachable_empty.
  - simpl. left. reflexivity.
Defined.

(** X3.  A reconcile request that is answered with an error message (400
    or 500) leaves the store exactly as it was, and so does a delete request
    that is answered with 404. *)
Theorem failed_request_changes_nothing d body name :
  (forall code message,
     fst (put_update_parking_lot d body) = Message code message ->
     snd (put_update_parking_lot d body) = d)
  /\ (forall message,
        fst (delete_parking_lot d name) = Message 404 message ->
        snd (delete_parking_lot d name) = d).
Proof.
  split.
  - intros code message.
    destruct (Prisma.findFirst d (UpdateBody.name body)) as [lot|] eqn:Hfind.
    + destruct (put_update_outcome d body lot Hfind) as [E|[E _]]; rewrite E;
        cbn [fst snd]; [reflexivity|discriminate].
    + destruct (invalid_request body) eqn:Hvalid.
      * unfold put_update_parking_lot. now rewrite Hfind, Hvalid.
      * destruct (valid_request _ Hvalid)
          as (n & l & la & lo & t & f & r & -> & Hn & Ht).
        cbn [UpdateBody.name] in Hfind.
        destruct (Z_le_gt_dec t max_array_length) as [Hlen|Hlen].
        -- rewrite (put_update_creates d n l la lo t f r Hfind Hvalid Hlen).
           cbn [fst]. discriminate.
        -- now rewrite (put_update_too_long d n l la lo t f r Hfind Hvalid)
             by lia.
  - intros message. unfold delete_parking_lot.
    destruct (Prisma.findFirst d (Some name)); cbn [fst snd];
      [discriminate|reflexivity].
Qed.

Lemma failed_request_changes_nothing_witness :
  snd (put_update_parking_lot db_A broken_A) = db_A
  /\ snd (delete_parking_lot db_A "Lot-B") = db_A.
Proof.
  destruct (failed_request_changes_nothing db_A broken_A "Lot-B") as [H1 H2].
  split.
  - apply (H1 500 "Internal Server Error"). reflexivity.
  - apply (H2 "Parking lot 'Lot-B' not found"). reflexivity.
Defined.

(** X4.  On a facility that exists, the reconcile route reads only the
    name and the two slot-number fields of the request: location, latitude,
    longitude and totalSlots are ignored, the stored facility rows are left
    as they are, and the name still finds the same facility afterwards. *)
Theorem update_ignores_attributes d body body' parkingLot :
  Prisma.findFirst d (UpdateBody.name body) = Some parkingLot ->
  UpdateBody.name body' = UpdateBody.name body ->
  UpdateBody.filledSlots body' = UpdateBody.filledSlots body ->
  UpdateBody.freeSlots body' = UpdateBody.freeSlots body ->
  put_update_parking_lot d body' = put_update_parking_lot d body
  /\ Prisma.parkingLot (snd (put_update_parking_lot d body)) = Prisma.parkingLot d
  /\ Prisma.findFirst (snd (put_update_parking_lot d body)) (UpdateBody.name body)
     = Some parkingLot.
Proof.
  intros Hfind Hn Hf Hr.
  assert (Hlots : Prisma.parkingLot (snd (put_update_parking_lot d body))
                  = Prisma.parkingLot d).
  { destruct (put_update_outcome d body parkingLot Hfind) as [E|[E _]];
      rewrite E; reflexivity. }
  split; [|split; [exact Hlots|]].
  - rewrite (put_update_existing d body parkingLot Hfind).
    rewrite <- Hn in Hfind.
    rewrite (put_update_existing d body' parkingLot Hfind).
    now rewrite Hf, Hr.
  - now rewrite (findFirst_same_lots _ _ _ Hlots).
Qed.

Lemma update_ignores_attributes_witness :
  put_update_parking_lot db_A resize_A = put_update_parking_lot db_A swap_A
  /\ Prisma.parkingLot (snd (put_update_parking_lot db_A swap_A))
     = Prisma.parkingLot db_A
  /\ Prisma.findFirst (snd (put_update_parking_lot db_A swap_A)) (Some "Lot-A")
     = Some facility_A.
Proof.
  apply (update_ignores_attributes db_A swap_A resize_A facility_A); reflexivity.
Defined.

(** X5.  Reconciling one facility leaves the slots of every other facility
    as they are, whatever the request holds. *)
Theorem update_spares_other_facilities d body parkingLot other :
  Prisma.findFirst d (UpdateBody.name body) = Some parkingLot ->
  ParkingLot.id other <> ParkingLot.id parkingLot ->
  Prisma.slots (snd (put_update_parking_lot d body)) other = Prisma.slots d other.
Proof.
  intros Hfind Hne.
  destruct (put_update_outcome d body parkingLot Hfind) as [E|[E _]]; rewrite E;
    cbn [snd]; [reflexivity|].
  now apply slots_after_update_other.
Qed.

Lemma update_spares_other_facilities_witness :
  Prisma.slots (snd (put_update_parking_lot db_AB swap_A)) facility_B
  = [Slot.mk 4 1 true 2; Slot.mk 5 2 false 2].
Proof.
  rewrite (update_spares_other_facilities db_AB swap_A facility_A facility_B).
  - reflexivity.
  - reflexivity.
  - discriminate.
Defined.

Lemma reconcile_freed filledSlots freeSlots slot :
  listed filledSlots (Slot.slotNumber slot) = false ->
  listed freeSlots (Slot.slotNumber slot) = true ->
  reconcile filledSlots freeSlots slot = Slot.set_status false slot.
Proof. unfold reconcile. now intros -> ->. Qed.

Lemma reconcile_settled filledSlots freeSlots s :
  Slot.status s = listed filledSlots (Slot.slotNumber s) ->
  reconcile filledSlots freeSlots s = s.
Proof.
  intros H. unfold reconcile.
  destruct (listed filledSlots (Slot.slotNumber s)).
  - rewrite <- H. apply set_status_same.
  - destruct (listed freeSlots (Slot.slotNumber s)); [|reflexivity].
    rewrite <- H. apply set_status_same.
Qed.

Lemma set_status_reconcile b filledSlots freeSlots s :
  Slot.set_status b (reconcile filledSlots freeSlots s) = Slot.set_status b s.
Proof. rewrite reconcile_only_status. reflexivity. Qed.

(** X6.  Reconciling an existing facility is idempotent: sending the same
    request a second time gives the same answer and leaves the store as the
    first request left it. *)
Theorem reconcile_twice d body parkingLot :
  wf d ->
  Prisma.findFirst d (UpdateBody.name body) = Some parkingLot ->
  put_update_parking_lot (snd (put_update_parking_lot d body)) body
  = put_update_parking_lot d body.
Proof.
  intros Hwf Hfind.
  destruct (put_update_outcome d body parkingLot Hfind) as [E|[E Hall]].
  - rewrite E at 1. cbn [snd]. reflexivity.
  - rewrite E. cbn [snd].
    set (f := UpdateBody.filledSlots body) in *.
    set (r := UpdateBody.freeSlots body) in *.
    set (updated := map (reconcile f r) (Prisma.slots d parkingLot)).
    set (d' := Prisma.update d (ParkingLot.id parkingLot)
                 (map (fun slot => (Slot.id slot, Slot.status slot)) updated)).
    assert (Hwf' : wf d') by now apply wf_update.
    assert (Hfind' : Prisma.findFirst d' (UpdateBody.name body) = Some parkingLot).
    { now rewrite (findFirst_same_lots d d' _ eq_refl). }
    assert (Hslots : Prisma.slots d' parkingLot = updated).
    { apply slots_after_reconcile. apply (wf_slot_ids _ Hwf). }
    assert (Hagain : map (reconcile f r) updated = updated).
    { unfold updated. rewrite map_map. apply map_ext. intros s.
      apply reconcile_idempotent. }
    rewrite (put_update_existing d' body parkingLot Hfind').
    fold f r. rewrite Hslots.
    rewrite (mapM_Return _ (reconcile f r)).
    + rewrite Hagain. f_equal.
      rewrite <- Hagain at 1. rewrite <- Hslots at 1.
      apply update_noop; [apply (wf_slot_ids _ Hwf')|].
      rewrite Hslots. intros s Hs. unfold updated in Hs.
      apply in_map_iff in Hs as [s0 [<- _]]. apply reconcile_idempotent.
    + intros a Ha. unfold updated in Ha.
      apply in_map_iff in Ha as [s [<- Hs]].
      apply (update_slot_by_number f r s); [apply reconcile_number|].
      now apply Hall.
Qed.

Lemma reconcile_twice_witness :
  put_update_parking_lot (snd (put_update_parking_lot db_AB swap_A)) swap_A
  = put_update_parking_lot db_AB swap_A.
Proof.
  apply (reconcile_twice db_AB swap_A facility_A).
  - apply reachable_wf. do 2 apply reachable_update. exact reachable_empty.
  - reflexivity.
Defined.

(** X7.  Sending a creation request a second time does not create a second
    facility and changes nothing: when a request for an unseen name passes
    the guard with a totalSlots of at most 2^32 - 1, it is answered with 201,
    and the same request sent again takes the update path, is answered with
    200 and the facility as it was created, and leaves the store as the
    creation left it. *)
Theorem creation_resent d body totalSlots :
  wf d ->
  Prisma.findFirst d (UpdateBody.name body) = None ->
  invalid_request body = false ->
  UpdateBody.totalSlots body = Some totalSlots ->
  totalSlots <= max_array_length ->
  exists created,
    fst (put_update_parking_lot d body)
    = Json 201 ("Parking lot created successfully.", created)
    /\ put_update_parking_lot (snd (put_update_parking_lot d body)) body
       = (Json 200 ("Parking lot and slot statuses updated successfully.", created),
          snd (put_update_parking_lot d body)).
Proof.
  intros Hwf Hfind Hvalid Htotal Hlen.
  destruct (valid_request _ Hvalid) as (n & l & la & lo & t & f & r & -> & Hn & Ht).
  cbn [UpdateBody.name] in Hfind.
  cbn [UpdateBody.totalSlots] in Htotal. injection Htotal as ->.
  rewrite (put_update_creates d n l la lo totalSlots f r Hfind Hvalid Hlen).
  cbn [fst snd].
  set (t := totalSlots).
  set (body := UpdateBody.mk (Some n) (Some l) (Some la) (Some lo) (Some t)
                 (VArr f) (VArr r)).
  set (create_slots := map (fun k => (k, listed (VArr f) k)) (one_to t)).
  set (c := Prisma.create d n l la lo t create_slots).
  exists (snd c). split; [reflexivity|].
  assert (Hwf' : wf (fst c)).
  { apply wf_create; auto. now apply findFirst_none. }
  assert (Hfound : Prisma.findFirst (fst c) (UpdateBody.name body) = Some (fst (snd c))).
  { now apply created_is_found. }
  assert (Hslots : Prisma.slots (fst c) (fst (snd c)) = snd (snd c)).
  { now apply created_slots. }
  assert (Hsame : forall s, In s (snd (snd c)) ->
                            reconcile (VArr f) (VArr r) s = s).
  { intros s Hs. apply reconcile_settled.
    apply insert_slots_flag in Hs. unfold create_slots in Hs.
    apply in_map_iff in Hs as [k [Hk _]]. injection Hk as Hk1 Hk2.
    now rewrite <- Hk1, Hk2. }
  rewrite (put_update_reconciles (fst c) body (fst (snd c)) Hfound eq_refl eq_refl).
  cbn [UpdateBody.filledSlots UpdateBody.freeSlots body].
  rewrite update_noop.
  - rewrite Hslots, (map_same _ _ Hsame). now destruct (snd c).
  - apply (wf_slot_ids _ Hwf').
  - now rewrite Hslots.
Qed.

Lemma creation_resent_witness :
  exists created,
    fst (put_update_parking_lot db_A lot_B)
    = Json 201 ("Parking lot created successfully.", created)
    /\ put_update_parking_lot (snd (put_update_parking_lot db_A lot_B)) lot_B
       = (Json 200 ("Parking lot and slot statuses updated successfully.", created),
          snd (put_update_parking_lot db_A lot_B)).
Proof.
  apply (creation_resent db_A lot_B 2).
  - apply reachable_wf. apply reachable_update. exact reachable_empty.
  - reflexivity.
  - reflexivity.
  - reflexivity.
  - unfold max_array_length. lia.
Defined.

(** X8.  Two successive reconciliations of a facility: for each slot the
    later request decides when it lists the slot's number (filled before
    free), and the earlier request decides otherwise; a slot that neither
    request lists keeps its flag. *)
Theorem later_request_decides d body1 body2 parkingLot filled1 free1 filled2 free2 slot :
  wf d ->
  Prisma.findFirst d (UpdateBody.name body1) = Some parkingLot ->
  UpdateBody.name body2 = UpdateBody.name body1 ->
  UpdateBody.filledSlots body1 = VArr filled1 ->
  UpdateBody.freeSlots body1 = VArr free1 ->
  UpdateBody.filledSlots body2 = VArr filled2 ->
  UpdateBody.freeSlots body2 = VArr free2 ->
  In slot (Prisma.slots d parkingLot) ->
  let k := Slot.slotNumber slot in
  let final :=
    Prisma.slots
      (snd (put_update_parking_lot (snd (put_update_parking_lot d body1)) body2))
      parkingLot in
  (appears k filled2 -> In (Slot.set_status true slot) final)
  /\ (~ appears k filled2 -> appears k free2 ->
      In (Slot.set_status false slot) final)
  /\ (~ appears k filled2 -> ~ appears k free2 -> appears k filled1 ->
      In (Slot.set_status true slot) final)
  /\ (~ appears k filled2 -> ~ appears k free2 ->
      ~ appears k filled1 -> appears k free1 ->
      In (Slot.set_status false slot) final)
  /\ (~ appears k filled2 -> ~ appears k free2 ->
      ~ appears k filled1 -> ~ appears k free1 ->
      In slot final).
Proof.
  intros Hwf Hfind Hname Hf1 Hr1 Hf2 Hr2 Hin k final.
  assert (Hfinal : final = map (reconcile (VArr filled2) (VArr free2))
                             (map (reconcile (VArr filled1) (VArr free1))
                                  (Prisma.slots d parkingLot))).
  { unfold final.
    rewrite (put_update_reconciles d body1 parkingLot Hfind)
      by (rewrite ?Hf1, ?Hr1; reflexivity).
    cbn [snd]. rewrite Hf1, Hr1.
    set (d1 := Prisma.update d _ _).
    assert (Hwf1 : wf d1) by now apply wf_update.
    assert (Hfind1 : Prisma.findFirst d1 (UpdateBody.name body2) = Some parkingLot).
    { rewrite Hname. now rewrite (findFirst_same_lots d d1 _ eq_refl). }
    rewrite (put_update_reconciles d1 body2 parkingLot Hfind1)
      by (rewrite ?Hf2, ?Hr2; reflexivity).
    cbn [snd]. rewrite Hf2, Hr2.
    rewrite slots_after_reconcile by apply (wf_slot_ids _ Hwf1).
    unfold d1. now rewrite slots_after_reconcile by apply (wf_slot_ids _ Hwf). }
  assert (Hthere : In (reconcile (VArr filled2) (VArr free2)
                         (reconcile (VArr filled1) (VArr free1) slot)) final).
  { rewrite Hfinal. now do 2 apply in_map. }
  clear Hfinal.
  repeat split.
  - intros H2. apply listed_appears in H2.
    rewrite reconcile_filled in Hthere by now rewrite reconcile_number.
    now rewrite set_status_reconcile in Hthere.
  - intros Hn2 H2. apply not_listed in Hn2. apply listed_appears in H2.
    rewrite reconcile_freed in Hthere by now rewrite reconcile_number.
    now rewrite set_status_reconcile in Hthere.
  - intros Hn2 Hm2 H1. apply not_listed in Hn2, Hm2. apply listed_appears in H1.
    rewrite reconcile_unlisted in Hthere by now rewrite reconcile_number.
    now rewrite reconcile_filled in Hthere.
  - intros Hn2 Hm2 Hn1 H1. apply not_listed in Hn2, Hm2, Hn1.
    apply listed_appears in H1.
    rewrite reconcile_unlisted in Hthere by now rewrite reconcile_number.
    now rewrite reconcile_freed in Hthere.
  - intros Hn2 Hm2 Hn1 Hm1. apply not_listed in Hn2, Hm2, Hn1, Hm1.
    rewrite reconcile_unlisted in Hthere by now rewrite reconcile_number.
    now rewrite reconcile_unlisted in Hthere.
Qed.

Lemma later_request_decides_witness :
  let final :=
    Prisma.slots
      (snd (put_update_parking_lot (snd (put_update_parking_lot db_A swap_A)) both_A))
      facility_A in
  In (Slot.mk 1 1 true 1) final
  /\ In (Slot.mk 2 2 false 1) final
  /\ In (Slot.mk 3 3 true 1) final.
Proof.
  assert (Hwf : wf db_A).
  { apply reachable_wf. apply reachable_update. exact reachable_empty. }
  pose proof (fun slot => later_request_decides db_A swap_A both_A facility_A
                [VNum (of_Z 1); VNum (of_Z 3)] [VNum (of_Z 2)]
                [VNum (of_Z 3)] [VNum (of_Z 3); VNum (of_Z 2)] slot
                Hwf eq_refl eq_refl eq_refl eq_refl eq_refl eq_refl) as H.
  split; [|split].
  - destruct (H (Slot.mk 1 1 false 1)) as (_ & _ & H3 & _).
    + simpl. left. reflexivity.
    + apply H3; rewrite <- ?listed_appears; try discriminate. reflexivity.
  - destruct (H (Slot.mk 2 2 true 1)) as (_ & H2 & _).
    + simpl. right. left. reflexivity.
    + apply H2; rewrite <- ?listed_appears; try discriminate. reflexivity.
  - destruct (H (Slot.mk 3 3 false 1)) as (H1 & _).
    + simpl. right. right. left. reflexivity.
    + apply H1. rewrite <- listed_appears. reflexivity.
Defined.

(** X9.  Deleting a facility leaves every other stored facility in place,
    still found under its name, with its slots as they were. *)
Theorem delete_spares_other_facilities d name parkingLot other :
  wf d ->
  Prisma.findFirst d (Some name) = Some parkingLot ->
  In other (Prisma.parkingLot d) ->
  other <> parkingLot ->
  let d' := snd (delete_parking_lot d name) in
  In other (Prisma.parkingLot d')
  /\ Prisma.findFirst d' (Some (ParkingLot.name other)) = Some other
  /\ Prisma.slots d' other = Prisma.slots d other.
Proof.
  intros Hwf Hfind Hin Hne d'. subst d'.
  unfold delete_parking_lot. rewrite Hfind. cbn [snd].
  assert (Hid : ParkingLot.id other <> ParkingLot.id parkingLot).
  { intros E. apply Hne.
    apply (NoDup_map_inj ParkingLot.id (Prisma.parkingLot d)); auto.
    - apply (wf_lot_ids _ Hwf).
    - now apply findFirst_in in Hfind. }
  assert (Hin' : In other (Prisma.parkingLot (Prisma.delete d (ParkingLot.id parkingLot)))).
  { simpl. apply filter_In. split; auto.
    apply Nat.eqb_neq in Hid. now rewrite Hid. }
  split; [exact Hin'|]. split.
  - apply findFirst_unique; auto. now apply wf_delete.
  - now apply slots_after_delete.
Qed.

Lemma delete_spares_other_facilities_witness :
  let d' := snd (delete_parking_lot db_AB "Lot-A") in
  In facility_B (Prisma.parkingLot d')
  /\ Prisma.findFirst d' (Some "Lot-B") = Some facility_B
  /\ Prisma.slots d' facility_B = Prisma.slots db_AB facility_B.
Proof.
  apply (delete_spares_other_facilities db_AB "Lot-A" facility_A facility_B).
  - apply reachable_wf. do 2 apply reachable_update. exact reachable_empty.
  - reflexivity.
  - simpl. right. left. reflexivity.
  - discriminate.
Defined.

(** X10.  Creating a facility leaves every facility that the store already
    has in place, still found under its name, with its slots as they were. *)
Theorem creation_spares_existing d body other :
  wf d ->
  Prisma.findFirst d (UpdateBody.name body) = None ->
  invalid_request body = false ->
  In other (Prisma.parkingLot d) ->
  let d' := snd (put_update_parking_lot d body) in
  In other (Prisma.parkingLot d')
  /\ Prisma.findFirst d' (Some (ParkingLot.name other)) = Some other
  /\ Prisma.slots d' other = Prisma.slots d other.
Proof.
  intros Hwf Hfind Hvalid Hin d'. subst d'.
  destruct (valid_request _ Hvalid) as (n & l & la & lo & t & f & r & -> & Hn & Ht).
  cbn [UpdateBody.name] in Hfind.
  destruct (Z_le_gt_dec t max_array_length) as [Hlen|Hlen].
  2:{ rewrite (put_update_too_long d n l la lo t f r Hfind Hvalid) by lia.
      cbn [snd]. split; [exact Hin|]. split; [|reflexivity].
      now apply findFirst_unique. }
  rewrite (put_update_creates d n l la lo t f r Hfind Hvalid Hlen). cbn [snd].
  set (create_slots := map (fun k => (k, listed (VArr f) k)) (one_to t)).
  assert (Hwf' : wf (fst (Prisma.create d n l la lo t create_slots))).
  { apply wf_create; auto. now apply findFirst_none. }
  assert (Hin' : In other (Prisma.parkingLot
                             (fst (Prisma.create d n l la lo t create_slots)))).
  { rewrite create_lots. apply in_or_app. now left. }
  split; [exact Hin'|]. split.
  - now apply findFirst_unique.
  - now apply slots_after_create.
Qed.

Lemma creation_spares_existing_witness :
  let d' := snd (put_update_parking_lot db_A lot_B) in
  In facility_A (Prisma.parkingLot d')
  /\ Prisma.findFirst d' (Some "Lot-A") = Some facility_A
  /\ Prisma.slots d' facility_A = Prisma.slots db_A facility_A.
Proof.
  apply (creation_spares_existing db_A lot_B facility_A).
  - apply reachable_wf. apply reachable_update. exact reachable_empty.
  - reflexivity.
  - reflexivity.
  - simpl. left. reflexivity.
Defined.

(** X11.  The listing route answers with every stored facility, once and in
    stored order, each with slots that are stored and owned by it; on a
    store that satisfies the invariant every stored slot is listed, and
    under one facility only. *)
Theorem listing_is_complete d :
  wf d ->
  exists listing,
    get_parking_lots d = Json 200 listing
    /\ map fst listing = Prisma.parkingLot d
    /\ (forall lot slots s,
          In (lot, slots) listing -> In s slots ->
          In s (Prisma.slot d) /\ Slot.parkingLotId s = ParkingLot.id lot)
    /\ (forall s, In s (Prisma.slot d) ->
          exists lot slots, In (lot, slots) listing /\ In s slots)
    /\ (forall lot1 slots1 lot2 slots2 s,
          In (lot1, slots1) listing -> In (lot2, slots2) listing ->
          In s slots1 -> In s slots2 -> lot1 = lot2).
Proof.
  intros Hwf. unfold get_parking_lots, Prisma.findMany.
  eexists. split; [reflexivity|].
  assert (Hentry : forall lot slots,
             In (lot, slots)
                (map (fun lot => (lot, Prisma.slots d lot)) (Prisma.parkingLot d)) ->
             In lot (Prisma.parkingLot d) /\ slots = Prisma.slots d lot).
  { intros lot slots H. apply in_map_iff in H as [x [Hx Hin]].
    injection Hx as -> <-. auto. }
  split; [|split; [|split]].
  - rewrite map_map. apply map_id.
  - intros lot slots s Hl Hs. apply Hentry in Hl as [_ ->].
    apply filter_In in Hs as [Hs Hown]. split; auto. now apply Nat.eqb_eq.
  - intros s Hs.
    pose proof (proj1 (Forall_forall _ _) (wf_owner _ Hwf) s Hs) as Hown.
    apply in_map_iff in Hown as [lot [Hid Hlot]].
    exists lot, (Prisma.slots d lot). split.
    + apply in_map_iff. now exists lot.
    + apply filter_In. split; auto. apply Nat.eqb_eq. now symmetry.
  - intros lot1 slots1 lot2 slots2 s H1 H2 Hs1 Hs2.
    apply Hentry in H1 as [Hl1 ->]. apply Hentry in H2 as [Hl2 ->].
    apply filter_In in Hs1 as [_ E1]. apply filter_In in Hs2 as [_ E2].
    apply Nat.eqb_eq in E1, E2.
    apply (NoDup_map_inj ParkingLot.id (Prisma.parkingLot d)); auto.
    + apply (wf_lot_ids _ Hwf).
    + congruence.
Qed.

Lemma listing_is_complete_witness :
  exists listing,
    get_parking_lots db_AB = Json 200 listing
    /\ map fst listing = Prisma.parkingLot db_AB
    /\ (forall lot slots s,
          In (lot, slots) listing -> In s slots ->
          In s (Prisma.slot db_AB) /\ Slot.parkingLotId s = ParkingLot.id lot)
    /\ (forall s, In s (Prisma.slot db_AB) ->
          exists lot slots, In (lot, slots) listing /\ In s slots)
    /\ (forall lot1 slots1 lot2 slots2 s,
          In (lot1, slots1) listing -> In (lot2, slots2) listing ->
          In s slots1 -> In s slots2 -> lot1 = lot2).
Proof.
  apply (listing_is_complete db_AB).
  apply reachable_wf. do 2 apply reachable_update. exact reachable_empty.
Defined.

(** X12.  The counters of a lot-details answer are within bounds: both
    filledSlots and availableSlots lie between 0 and totalSlots. *)
Theorem counters_within_bounds
    (calculateDistanceInKM : value -> value -> number -> number -> number)
    (toFixed : number -> Z -> string) d body code r :
  post_lot_details calculateDistanceInKM toFixed d body = Json code r ->
  0 <= ResponseData.filledSlots r <= ResponseData.totalSlots r
  /\ 0 <= ResponseData.availableSlots r <= ResponseData.totalSlots r.
Proof.
  intros H. apply lot_details_counters in H as (lot & _ & Ht & Hf & Ha).
  pose proof (count_status_total (Prisma.slots d lot)) as Htot.
  rewrite Ht, Hf, Ha. unfold count_status in *. lia.
Qed.

Lemma counters_within_bounds_witness :
  0 <= 2 <= 3 /\ 0 <= 1 <= 3.
Proof.
  exact (counters_within_bounds flat_distance no_digits db_A details_A 200
           (ResponseData.mk "Lot-A" (Finite (1297 # 100)) (Finite (7759 # 100))
              3 1 2 None) eq_refl).
Defined.

(** X13.  On every store that the routes can produce, the totalSlots of a
    lot-details answer, which is counted from the slots, is the totalSlots
    that the facility was created with (0 for a negative one). *)
Theorem details_total_is_declared
    (calculateDistanceInKM : value -> value -> number -> number -> number)
    (toFixed : number -> Z -> string) d body code r :
  reachable d ->
  post_lot_details calculateDistanceInKM toFixed d body = Json code r ->
  exists parkingLot,
    Prisma.findFirst d (LotDetailsBody.parkingLotName body) = Some parkingLot
    /\ ResponseData.totalSlots r = Z.max 0 (ParkingLot.totalSlots parkingLot).
Proof.
  intros Hreach H. apply lot_details_counters in H as (lot & Hfind & Ht & _).
  exists lot. split; [exact Hfind|].
  pose proof (reachable_numbered d Hreach lot (findFirst_in _ _ _ Hfind)) as Hnum.
  apply (f_equal (@List.length Z)) in Hnum.
  rewrite length_map, one_to_length in Hnum. rewrite Ht, Hnum. lia.
Qed.

Lemma details_total_is_declared_witness :
  exists parkingLot,
    Prisma.findFirst (snd (put_update_parking_lot db_AB swap_A)) (Some "Lot-A")
    = Some parkingLot
    /\ 3 = Z.max 0 (ParkingLot.totalSlots parkingLot).
Proof.
  apply (details_total_is_declared flat_distance no_digits
           (snd (put_update_parking_lot db_AB swap_A)) details_A 200
           (ResponseData.mk "Lot-A" (Finite (1297 # 100)) (Finite (7759 # 100))
              3 2 1 None)).
  - do 3 apply reachable_update. exact reachable_empty.
  - reflexivity.
Defined.

(** X14.  On a store that satisfies the invariant, a lot-details lookup by
    the name of a stored facility answers 200 with the name and coordinates
    of that very facility and the number of its own slots; a lookup by a name
    that no stored facility has answers 404. *)
Theorem details_of_stored_facility
    (calculateDistanceInKM : value -> value -> number -> number -> number)
    (toFixed : number -> Z -> string) d userLat userLon :
  wf d ->
  (forall parkingLot,
     In parkingLot (Prisma.parkingLot d) ->
     exists r,
       post_lot_details calculateDistanceInKM toFixed d
         (LotDetailsBody.mk (Some (ParkingLot.name parkingLot)) userLat userLon)
       = Json 200 r
       /\ ResponseData.parkingLotName r = ParkingLot.name parkingLot
       /\ ResponseData.latitude r = ParkingLot.latitude parkingLot
       /\ ResponseData.longitude r = ParkingLot.longitude parkingLot
       /\ ResponseData.totalSlots r
          = Z.of_nat (List.length (Prisma.slots d parkingLot)))
  /\ (forall name,
        ~ In name (map ParkingLot.name (Prisma.parkingLot d)) ->
        post_lot_details calculateDistanceInKM toFixed d
          (LotDetailsBody.mk (Some name) userLat userLon)
        = Message 404 "Parking lot not found").
Proof.
  intros Hwf. split.
  - intros lot Hin. unfold post_lot_details.
    cbn [LotDetailsBody.parkingLotName].
    rewrite (findFirst_unique d lot Hwf Hin).
    eexists. split; [reflexivity|]. repeat split.
  - intros name Hname. apply findFirst_none in Hname.
    unfold post_lot_details. cbn [LotDetailsBody.parkingLotName].
    now rewrite Hname.
Qed.

Lemma details_of_stored_facility_witness :
  (exists r,
     post_lot_details flat_distance no_digits db_AB
       (LotDetailsBody.mk (Some "Lot-B") VUndefined VUndefined)
     = Json 200 r
     /\ ResponseData.parkingLotName r = "Lot-B"
     /\ ResponseData.latitude r = Finite (1301 # 100)
     /\ ResponseData.longitude r = Finite (7762 # 100)
     /\ ResponseData.totalSlots r = 2)
  /\ post_lot_details flat_distance no_digits db_AB
       (LotDetailsBody.mk (Some "Lot-C") VUndefined VUndefined)
     = Message 404 "Parking lot not found".
Proof.
  destruct (details_of_stored_facility flat_distance no_digits db_AB
              VUndefined VUndefined) as [H1 H2].
  - apply reachable_wf. do 2 apply reachable_update. exact reachable_empty.
  - split.
    + apply (H1 facility_B). simpl. right. left. reflexivity.
    + apply H2. simpl. intros [H|[H|[]]]; discriminate.
Defined.

Lemma falsy_string (o : option string) :
  negb (to_boolean o) = true <-> o = None \/ o = Some "".
Proof.
  destruct o as [s|]; cbv [to_boolean option_ToBoolean string_ToBoolean].
  - destruct (String.eqb_spec s ""); cbn.
    + subst. split; auto.
    + split; [discriminate|]. intros [H|H]; [discriminate|].
      injection H as H. contradiction.
  - cbn. split; auto.
Qed.

Lemma falsy_coordinate (o : option number) :
  negb (to_boolean o) = true <-> zero_or_absent o.
Proof.
  destruct o as [[|neg|q]|];
    cbv [to_boolean option_ToBoolean number_ToBoolean zero_or_absent].
  - split; auto.
  - split; [discriminate|contradiction].
  - rewrite negb_involutive. apply Qeq_bool_iff.
  - split; auto.
Qed.

Lemma falsy_total (o : option Z) :
  negb (to_boolean o) = true <-> o = None \/ o = Some 0.
Proof.
  destruct o as [z|]; cbv [to_boolean option_ToBoolean Z_ToBoolean].
  - destruct (Z.eqb_spec z 0); cbn.
    + subst. split; auto.
    + split; [discriminate|]. intros [H|H]; [discriminate|].
      injection H as H. contradiction.
  - cbn. split; auto.
Qed.

Lemma not_an_array v :
  negb (isArray v) = true <-> forall elements, v <> VArr elements.
Proof.
  destruct v; simpl; split; try discriminate; auto.
  intros H. exfalso. now apply (H elements).
Qed.

(** X15.  For a name that the store does not have, the reconcile route
    answers 400, leaving the store as it was, exactly when name or location
    is absent or empty, latitude or longitude is absent, zero or NaN,
    totalSlots is absent or zero, or one of the two slot-number fields is not
    an array; so a facility on the equator or on the prime meridian cannot be
    created.  A request that is not refused in this way is answered with 201
    when its totalSlots is at most 2^32 - 1, and with the internal failure,
    the store left as it was, when its totalSlots is larger. *)
Theorem creation_guard d body :
  Prisma.findFirst d (UpdateBody.name body) = None ->
  let rejected :=
    (UpdateBody.name body = None \/ UpdateBody.name body = Some "")
    \/ (UpdateBody.location body = None \/ UpdateBody.location body = Some "")
    \/ zero_or_absent (UpdateBody.latitude body)
    \/ zero_or_absent (UpdateBody.longitude body)
    \/ (UpdateBody.totalSlots body = None \/ UpdateBody.totalSlots body = Some 0)
    \/ (forall elements, UpdateBody.filledSlots body <> VArr elements)
    \/ (forall elements, UpdateBody.freeSlots body <> VArr elements) in
  (rejected ->
   put_update_parking_lot d body = (Message 400 invalid_request_message, d))
  /\ (~ rejected ->
      forall totalSlots,
        UpdateBody.totalSlots body = Some totalSlots ->
        (totalSlots <= max_array_length ->
         exists created,
           fst (put_update_parking_lot d body)
           = Json 201 ("Parking lot created successfully.", created))
        /\ (max_array_length < totalSlots ->
            put_update_parking_lot d body = (internal_server_error, d))).
Proof.
  intros Hfind rejected.
  assert (Hguard : invalid_request body = true <-> rejected).
  { unfold invalid_request, rejected. rewrite !orb_true_iff.
    rewrite !falsy_string, !falsy_coordinate, falsy_total, !not_an_array.
    tauto. }
  split.
  - intros H. apply Hguard in H.
    unfold put_update_parking_lot. now rewrite Hfind, H.
  - intros H totalSlots Htotal.
    destruct (invalid_request body) eqn:Hvalid.
    + exfalso. now apply H, Hguard.
    + destruct (valid_request _ Hvalid)
        as (n & l & la & lo & t & f & r & -> & Hn & Ht).
      cbn [UpdateBody.name] in Hfind.
      cbn [UpdateBody.totalSlots] in Htotal. injection Htotal as ->.
      split; intros Hlen.
      * rewrite (put_update_creates d n l la lo totalSlots f r Hfind Hvalid Hlen).
        eexists. reflexivity.
      * now apply put_update_too_long.
Qed.

Lemma creation_guard_witness :
  put_update_parking_lot db_A lot_E = (Message 400 invalid_request_message, db_A)
  /\ (exists created,
        fst (put_update_parking_lot db_A lot_B)
        = Json 201 ("Parking lot created successfully.", created))
  /\ put_update_parking_lot db_A lot_G = (internal_server_error, db_A).
Proof.
  destruct (creation_guard db_A lot_E eq_refl) as [H1 _].
  destruct (creation_guard db_A lot_B eq_refl) as [_ H2].
  destruct (creation_guard db_A lot_G eq_refl) as [_ H3].
  split; [|split].
  - apply H1. right. right. left. simpl. reflexivity.
  - edestruct H2 as [Hcreate _].
    + simpl. intros [[H|H]|[[H|H]|[H|[H|[[H|H]|[H|H]]]]]]; try discriminate.
      * now apply (H [VNum (of_Z 1)]).
      * now apply (H [VNum (of_Z 2)]).
    + reflexivity.
    + apply Hcreate. unfold max_array_length. lia.
  - edestruct H3 as [_ Hfail].
    + simpl. intros [[H|H]|[[H|H]|[H|[H|[[H|H]|[H|H]]]]]]; try discriminate.
      * now apply (H [VNum (of_Z 2)]).
      * now apply (H []).
    + reflexivity.
    + apply Hfail. unfold max_array_length. lia.
Defined.

(** X16.  A name whose facility was deleted can be created again: a
    request for it that passes the guard with a totalSlots of at most
    2^32 - 1 takes the creation path, is answered with 201 and slots numbered
    1 .. totalSlots, and the flags of the new slots come from this request
    alone. *)
Theorem deleted_name_is_created_again d body name totalSlots parkingLot :
  wf d ->
  UpdateBody.name body = Some name ->
  UpdateBody.totalSlots body = Some totalSlots ->
  totalSlots <= max_array_length ->
  Prisma.findFirst d (Some name) = Some parkingLot ->
  invalid_request body = false ->
  exists created slots,
    fst (put_update_parking_lot (snd (delete_parking_lot d name)) body)
    = Json 201 ("Parking lot created successfully.", (created, slots))
    /\ ParkingLot.name created = name
    /\ ParkingLot.totalSlots created = totalSlots
    /\ map Slot.slotNumber slots = one_to totalSlots
    /\ (forall s, In s slots ->
          Slot.status s = listed (UpdateBody.filledSlots body) (Slot.slotNumber s)).
Proof.
  intros Hwf Hname Htotal Hlen Hfind Hvalid.
  unfold delete_parking_lot. rewrite Hfind. cbn [snd].
  pose proof (deleted_is_not_found d name parkingLot Hwf Hfind) as Hgone.
  destruct (valid_request _ Hvalid) as (n & l & la & lo & t & f & r & -> & Hn & Ht).
  cbn [UpdateBody.name] in Hname. injection Hname as ->.
  cbn [UpdateBody.totalSlots] in Htotal. injection Htotal as ->.
  rewrite (put_update_creates _ name l la lo totalSlots f r Hgone Hvalid Hlen).
  cbn [fst].
  set (create_slots := map (fun k => (k, listed (VArr f) k)) (one_to totalSlots)).
  eexists _, _. split; [reflexivity|].
  cbn [UpdateBody.totalSlots UpdateBody.filledSlots ParkingLot.name
       ParkingLot.totalSlots].
  repeat split.
  - rewrite insert_slots_numbers. unfold create_slots.
    rewrite map_map. apply map_id.
  - intros s Hs. apply insert_slots_flag in Hs. unfold create_slots in Hs.
    apply in_map_iff in Hs as [k [Hk _]]. injection Hk as Hk1 Hk2.
    now rewrite <- Hk1, Hk2.
Qed.

Lemma deleted_name_is_created_again_witness :
  exists created slots,
    fst (put_update_parking_lot (snd (delete_parking_lot
                                        (snd (put_update_parking_lot db_A swap_A))
                                        "Lot-A")) lot_A)
    = Json 201 ("Parking lot created successfully.", (created, slots))
    /\ ParkingLot.name created = "Lot-A"
    /\ ParkingLot.totalSlots created = 3
    /\ map Slot.slotNumber slots = one_to 3
    /\ (forall s, In s slots ->
          Slot.status s = listed (UpdateBody.filledSlots lot_A) (Slot.slotNumber s)).
Proof.
  apply (deleted_name_is_created_again
           (snd (put_update_parking_lot db_A swap_A)) lot_A "Lot-A" 3 facility_A).
  - apply reachable_wf. do 2 apply reachable_update. exact reachable_empty.
  - reflexivity.
  - reflexivity.
  - unfold max_array_length. lia.
  - reflexivity.
  - reflexivity.
Defined.

(** X17.  The nearby route answers 400 exactly when one of the two
    coordinates is falsy, and 200 otherwise; on a store that satisfies the
    invariant its list holds stored facilities only and none of them
    twice. *)
Theorem nearby_answers
    (calculateDistanceInKM : value -> value -> number -> number -> number) d body :
  wf d ->
  (to_boolean (NearbyBody.userLat body) = false
   \/ to_boolean (NearbyBody.userLon body) = false ->
   post_nearby_parking_lots calculateDistanceInKM d body
   = Message 400 "User location (latitude, longitude) is required")
  /\ (to_boolean (NearbyBody.userLat body) = true ->
      to_boolean (NearbyBody.userLon body) = true ->
      exists lots,
        post_nearby_parking_lots calculateDistanceInKM d body = Json 200 lots
        /\ incl lots (Prisma.parkingLot d)
        /\ NoDup (map ParkingLot.name lots)).
Proof.
  intros Hwf. unfold post_nearby_parking_lots. split.
  - intros [H|H]; rewrite H; simpl; [reflexivity|].
    now rewrite orb_true_r.
  - intros -> ->. simpl. eexists. split; [reflexivity|]. split.
    + intros lot Hin. unfold nearbyParkingLots in Hin.
      now apply filter_In in Hin as [Hin _].
    + unfold nearbyParkingLots. apply NoDup_map_filter. apply (wf_names _ Hwf).
Qed.

Lemma nearby_answers_witness :
  post_nearby_parking_lots flat_distance db_AB
    (NearbyBody.mk VUndefined (VNum (Finite (776 # 10))))
  = Message 400 "User location (latitude, longitude) is required"
  /\ exists lots,
       post_nearby_parking_lots flat_distance db_AB
         (NearbyBody.mk (VNum (Finite 13)) (VNum (Finite (776 # 10))))
       = Json 200 lots
       /\ incl lots (Prisma.parkingLot db_AB)
       /\ NoDup (map ParkingLot.name lots).
Proof.
  assert (Hwf : wf db_AB).
  { apply reachable_wf. do 2 apply reachable_update. exact reachable_empty. }
  destruct (nearby_answers flat_distance db_AB
              (NearbyBody.mk VUndefined (VNum (Finite (776 # 10)))) Hwf) as [H1 _].
  destruct (nearby_answers flat_distance db_AB
              (NearbyBody.mk (VNum (Finite 13)) (VNum (Finite (776 # 10)))) Hwf)
    as [_ H2].
  split.
  - apply H1. left. reflexivity.
  - apply H2; reflexivity.
Defined.

(** X18.  On an update of an existing facility with two lists, a slot whose
    number is in filledSlots ends up occupied, and a slot whose number is in
    freeSlots and not in filledSlots ends up free, in the store as in the
    answer. *)
Theorem listed_slot_takes_its_flag d body parkingLot filled free slot :
  wf d ->
  Prisma.findFirst d (UpdateBody.name body) = Some parkingLot ->
  UpdateBody.filledSlots body = VArr filled ->
  UpdateBody.freeSlots body = VArr free ->
  In slot (Prisma.slots d parkingLot) ->
  exists updatedSlots,
    fst (put_update_parking_lot d body)
    = Json 200 ("Parking lot and slot statuses updated successfully.",
                (parkingLot, updatedSlots))
    /\ Prisma.slots (snd (put_update_parking_lot d body)) parkingLot = updatedSlots
    /\ (appears (Slot.slotNumber slot) filled ->
        In (Slot.set_status true slot) updatedSlots)
    /\ (~ appears (Slot.slotNumber slot) filled ->
        appears (Slot.slotNumber slot) free ->
        In (Slot.set_status false slot) updatedSlots).
Proof.
  intros Hwf Hfind Hf Hr Hin.
  rewrite (put_update_reconciles d body parkingLot Hfind)
    by (rewrite ?Hf, ?Hr; reflexivity).
  cbn [fst snd]. rewrite Hf, Hr.
  eexists. split; [reflexivity|]. split.
  - apply slots_after_reconcile. apply (wf_slot_ids _ Hwf).
  - split.
    + intros H. apply listed_appears in H.
      rewrite <- (reconcile_filled (VArr filled) (VArr free) slot H).
      now apply in_map.
    + intros Hn H. apply not_listed in Hn. apply listed_appears in H.
      rewrite <- (reconcile_freed (VArr filled) (VArr free) slot Hn H).
      now apply in_map.
Qed.

Lemma listed_slot_takes_its_flag_witness :
  exists updatedSlots,
    fst (put_update_parking_lot db_A swap_A)
    = Json 200 ("Parking lot and slot statuses updated successfully.",
                (facility_A, updatedSlots))
    /\ Prisma.slots (snd (put_update_parking_lot db_A swap_A)) facility_A
       = updatedSlots
    /\ In (Slot.mk 2 2 false 1) updatedSlots.
Proof.
  destruct (listed_slot_takes_its_flag db_A swap_A facility_A
              [VNum (of_Z 1); VNum (of_Z 3)] [VNum (of_Z 2)] (Slot.mk 2 2 true 1))
    as (updated & H1 & H2 & _ & H4).
  - apply reachable_wf. apply reachable_update. exact reachable_empty.
  - reflexivity.
  - reflexivity.
  - reflexivity.
  - simpl. right. left. reflexivity.
  - exists updated. split; [exact H1|]. split; [exact H2|].
    apply H4.
    + rewrite <- listed_appears. discriminate.
    + rewrite <- listed_appears. reflexivity.
Defined.

(** X19.  Whatever facility and slots a reconcile request is answered
    with, on creation or on update, is what the store holds afterwards: the
    listing route shows this facility with these slots, and its name finds
    it. *)
Theorem answer_is_stored d body code message parkingLot slots :
  wf d ->
  fst (put_update_parking_lot d body) = Json code (message, (parkingLot, slots)) ->
  let d' := snd (put_update_parking_lot d body) in
  exists listing,
    get_parking_lots d' = Json 200 listing
    /\ In (parkingLot, slots) listing
    /\ Prisma.findFirst d' (Some (ParkingLot.name parkingLot)) = Some parkingLot.
Proof.
  intros Hwf Hanswer d'.
  assert (Hwf' : wf d') by now apply wf_put_update.
  assert (Hstored : In parkingLot (Prisma.parkingLot d')
                    /\ Prisma.slots d' parkingLot = slots).
  { subst d'.
    destruct (Prisma.findFirst d (UpdateBody.name body)) as [lot|] eqn:Hfind.
    - destruct (put_update_outcome d body lot Hfind) as [E|[E _]];
        rewrite E in *; cbn [fst snd] in *; [discriminate|].
      injection Hanswer as _ _ <- <-. split.
      + now apply findFirst_in in Hfind.
      + apply slots_after_reconcile. apply (wf_slot_ids _ Hwf).
    - destruct (invalid_request body) eqn:Hvalid.
      + unfold put_update_parking_lot in Hanswer.
        rewrite Hfind, Hvalid in Hanswer. discriminate.
      + destruct (valid_request _ Hvalid)
          as (n & l & la & lo & t & f & r & -> & Hn & Ht).
        cbn [UpdateBody.name] in Hfind.
        destruct (Z_le_gt_dec t max_array_length) as [Hlen|Hlen];
          [|rewrite (put_update_too_long d n l la lo t f r Hfind Hvalid) in *
              by lia; discriminate].
        rewrite (put_update_creates d n l la lo t f r Hfind Hvalid Hlen) in *.
        cbn [fst snd] in *.
        set (c := Prisma.create d n l la lo t _) in *.
        assert (Hc : snd c = (parkingLot, slots)) by congruence.
        pose proof (created_slots d n l la lo t
                      (map (fun k => (k, listed (VArr f) k)) (one_to t)) Hwf)
          as Hslots.
        fold c in Hslots. rewrite Hc in Hslots. cbn [fst snd] in Hslots.
        split; [|exact Hslots].
        unfold c. rewrite create_lots. fold c. rewrite Hc.
        apply in_or_app. right. now left. }
  destruct Hstored as [Hin Hslots].
  unfold get_parking_lots, Prisma.findMany. eexists. split; [reflexivity|]. split.
  - apply in_map_iff. exists parkingLot. now rewrite Hslots.
  - now apply findFirst_unique.
Qed.

Lemma answer_is_stored_witness :
  exists listing,
    get_parking_lots (snd (put_update_parking_lot db_AB swap_A)) = Json 200 listing
    /\ In (facility_A,
           [Slot.mk 1 1 true 1; Slot.mk 2 2 false 1; Slot.mk 3 3 true 1]) listing
    /\ Prisma.findFirst (snd (put_update_parking_lot db_AB swap_A)) (Some "Lot-A")
       = Some facility_A.
Proof.
  apply (answer_is_stored db_AB swap_A 200
           "Parking lot and slot statuses updated successfully." facility_A
           [Slot.mk 1 1 true 1; Slot.mk 2 2 false 1; Slot.mk 3 3 true 1]).
  - apply reachable_wf. do 2 apply reachable_update. exact reachable_empty.
  - reflexivity.
Defined.
